(** * Vircadia web client: the Domain connection manager and the Shape entity builder

    A shallow embedding of [Domain] (connect / disconnect / the raw
    state-change handler / [cleanDomainUrl] / persistent variables) and of
    [ShapeEntityBuilder.build], with the properties of the specification
    stated and proved over it.

    Modelling conventions:
    - a JavaScript string is a [string] of [ascii] code units; [toLowerCase]
      folds the letters A-Z and leaves every other code unit as it is, which
      is what the source does on ASCII strings ([JS.isAscii]); a statement
      that depends on how letters outside ASCII are folded is made for ASCII
      strings only;
    - the objects of the SDK ([DomainServer], [DomainAudio]) are identified
      by their context id; the calls the manager makes on them are recorded,
      in order, in the world's [calls] trace;
    - the static [Config] store is a finite map from keys to strings;
    - [Log.debug] / [Log.info] / [Log.error] only print and are left out;
    - an [async] method without [await] runs its body synchronously; a
      [throw] in it (a rejected promise) is the completion [Throw]. *)

From Stdlib Require Import Ascii String List Bool Arith ZArith Lia.
From stdpp Require Import base option strings list gmap.

Local Open Scope string_scope.

(** ** JavaScript string primitives used by the source *)

Module JS.

Definition isUpperAZ (c : ascii) : bool :=
  (65 <=? nat_of_ascii c)%nat && (nat_of_ascii c <=? 90)%nat.

Definition toLowerChar (c : ascii) : ascii :=
  if isUpperAZ c then ascii_of_nat (nat_of_ascii c + 32) else c.

(** [String.prototype.toLowerCase] *)
Fixpoint toLowerCase (s : string) : string :=
  match s with
  | EmptyString => EmptyString
  | String c rest => String (toLowerChar c) (toLowerCase rest)
  end.

(** Strings of ASCII code units (below 128). *)
Definition isAsciiChar (c : ascii) : bool := (nat_of_ascii c <? 128)%nat.

Fixpoint isAscii (s : string) : bool :=
  match s with
  | EmptyString => true
  | String c rest => isAsciiChar c && isAscii rest
  end.

(** [s.startsWith(p)] *)
Fixpoint startsWith (s p : string) {struct p} : bool :=
  match p with
  | EmptyString => true
  | String pc p' =>
      match s with
      | EmptyString => false
      | String sc s' => if Ascii.eqb sc pc then startsWith s' p' else false
      end
  end.

(** [s.substring(start)]: the one-argument form, from [start] to the end. *)
Fixpoint substring (start : nat) (s : string) : string :=
  match start with
  | O => s
  | S n =>
      match s with
      | EmptyString => EmptyString
      | String _ rest => substring n rest
      end
  end.

(** The class [\d]: the decimal digits 0-9. *)
Definition isDigit (c : ascii) : bool :=
  (48 <=? nat_of_ascii c)%nat && (nat_of_ascii c <=? 57)%nat.

(** [\d*$] tried at the head of [s]: the greedy run of digits has to reach
    the end of the input. *)
Fixpoint digitsToEnd (s : string) : bool :=
  match s with
  | EmptyString => true
  | String c rest => isDigit c && digitsToEnd rest
  end.

(** [:\d*$] tried at the head of [s]; the matched text on success. *)
Definition portAtHead (s : string) : option string :=
  match s with
  | String ":" rest => if digitsToEnd rest then Some s else None
  | _ => None
  end.

(** [(/:\d*$/u).exec(s)]: the start positions are tried from left to
    right; the result is the match (its index and text) or null. *)
Fixpoint portRegexExecFrom (index : nat) (s : string) : option (nat * string) :=
  match portAtHead s with
  | Some m => Some (index, m)
  | None =>
      match s with
      | EmptyString => None
      | String _ rest => portRegexExecFrom (S index) rest
      end
  end.

Definition portRegexExec (s : string) : option (nat * string) :=
  portRegexExecFrom 0 s.

(** [Array.isArray(r)] for the result of [exec]: an array or null. *)
Definition Array_isArray {A} (r : option A) : bool :=
  match r with Some _ => true | None => false end.

End JS.

(** The last code unit of a string, if any. *)
Fixpoint lastChar (s : string) : option ascii :=
  match s with
  | EmptyString => None
  | String c rest => match lastChar rest with Some d => Some d | None => Some c end
  end.

(** ** The SDK's connection states and what the source imports *)

Inductive ConnectionState : Type :=
| DISCONNECTED | CONNECTING | CONNECTED | REFUSED | ERROR.

Definition ConnectionState_eqb (a b : ConnectionState) : bool :=
  match a, b with
  | DISCONNECTED, DISCONNECTED | CONNECTING, CONNECTING
  | CONNECTED, CONNECTED | REFUSED, REFUSED | ERROR, ERROR => true
  | _, _ => false
  end.

(** The imports whose definitions are outside the source at hand: the display
    names of the SDK's [DomainServer.stateToString] and the key names
    exported by the configuration module. *)
Class Imports : Type := {
  stateToString : ConnectionState -> string;
  DEFAULT_METAVERSE_URL : string;
  DEFAULT_DOMAIN_PROTOCOL : string;
  DEFAULT_DOMAIN_PORT : string
}.

(** Modelled from the spec: the persistent Config store, "key/value
    persistence with get/set/default semantics"; its module is not part of
    the source at hand. A key that is absent reads as the default. *)
Module Config.

Definition getItemOr (cfg : gmap string string) (pKey pDefault : string) : string :=
  default pDefault (cfg !! pKey).

(** The call without a default: an absent key reads as [undefined], which
    the string concatenations of the source print as "undefined". *)
Definition getItem (cfg : gmap string string) (pKey : string) : string :=
  getItemOr cfg pKey "undefined".

Definition setItem (cfg : gmap string string) (pKey pValue : string) : gmap string string :=
  <[pKey := pValue]> cfg.

End Config.

(** [DomainPersist.DOMAIN_URL] *)
Definition DOMAIN_URL : string := "Domain.Url".

Section CleanDomainUrl.
Context `{Imports}.

(** The first half of [Domain.cleanDomainUrl]: lower-casing, the two
    http-prefix tests and the "ws://" test. *)
Definition cleanDomainUrl_scheme (cfg : gmap string string) (pUrl : string) : string :=
  let url := JS.toLowerCase pUrl in
  let url := if JS.startsWith url "http://" then JS.substring 7 url else url in
  let url := if JS.startsWith url "https://" then JS.substring 8 url else url in
  if negb (JS.startsWith url "ws://")
  then (Config.getItem cfg DEFAULT_DOMAIN_PROTOCOL +:+ "//") +:+ url
  else url.

(** [Domain.cleanDomainUrl] *)
Definition cleanDomainUrl (cfg : gmap string string) (pUrl : string) : string :=
  let url := cleanDomainUrl_scheme cfg pUrl in
  let ifPort := JS.portRegexExec url in
  if negb (JS.Array_isArray ifPort)
  then (url +:+ ":") +:+ Config.getItem cfg DEFAULT_DOMAIN_PORT
  else url.

(** The default protocol is the websocket scheme, written in lower-case
    ASCII ("ws:"), and the default port is a run of digits ("40102"). *)
Definition websocketDefaults (cfg : gmap string string) : Prop :=
  JS.isAscii (Config.getItem cfg DEFAULT_DOMAIN_PROTOCOL) = true /\
  JS.toLowerCase (Config.getItem cfg DEFAULT_DOMAIN_PROTOCOL)
    = Config.getItem cfg DEFAULT_DOMAIN_PROTOCOL /\
  JS.startsWith (Config.getItem cfg DEFAULT_DOMAIN_PROTOCOL +:+ "//") "ws://" = true /\
  JS.digitsToEnd (Config.getItem cfg DEFAULT_DOMAIN_PORT) = true.

End CleanDomainUrl.

(** ** The manager and the world it runs in *)

(** An SDK [DomainServer]: the manager only keeps the reference; what it
    reads from it in the handler is [contextID]. *)
Record DomainServer : Type := { contextID : nat }.

(** A [DomainAudio], constructed from a context id. *)
Record DomainAudio : Type := { audioContextID : nat }.

(** The constructor and method calls the manager makes on SDK objects. *)
Inductive SdkCall : Type :=
| NewDomainServer (ctx : nat)
| SetOnStateChanged (ctx : nat)
| ServerConnect (ctx : nat) (url : string)
| ServerDisconnect (ctx : nat)
| NewDomainAudio (ctx : nat).

(** What a subscriber can read through the manager reference handed to it:
    the private fields as they are at the time of the emission. *)
Record DomainView : Type := {
  view_domainUrl : string;
  view_domain : option DomainServer;
  view_audioClient : option DomainAudio
}.

(** The arguments of one [emit]: [(d, newState, info)]. *)
Record Emission : Type := {
  em_domain : DomainView;
  em_newState : string;
  em_info : string
}.

(** Modelled from the spec: the Signal, "a single producer call synchronously
    invokes all registered callbacks"; its module is not part of the source
    at hand. A Signal is represented by the emissions made on it, oldest
    first; the subscribers' own effects are outside this model. *)
Record Signal : Type := { emitted : list Emission }.

Definition Signal_new : Signal := {| emitted := [] |}.

Definition Signal_emit (s : Signal) (e : Emission) : Signal :=
  {| emitted := emitted s ++ [e] |}.

(** The fields of class [Domain]. *)
Record Domain : Type := {
  _domainUrl : string;
  _domain : option DomainServer;
  _audioClient : option DomainAudio;
  onStateChange : Signal
}.

Definition viewOf (d : Domain) : DomainView :=
  {| view_domainUrl := _domainUrl d;
     view_domain := _domain d;
     view_audioClient := _audioClient d |}.

(** The manager together with what it acts on: the static Config store, the
    SDK's supply of context ids and the trace of calls made on the SDK. *)
Record World : Type := {
  config : gmap string string;
  nextContextID : nat;
  calls : list SdkCall;
  manager : Domain
}.

(** The truthiness test on a [Nullable] field. *)
Definition isSet {A} (x : option A) : bool :=
  match x with Some _ => true | None => false end.

(** How a method call completes. *)
Inductive Completion : Type :=
| Normal
| Throw (message : string).

Definition isConnectedState (s : ConnectionState) : bool :=
  ConnectionState_eqb s CONNECTED.

Section DomainManager.
Context `{Imports}.

(** [restorePersistentVariables] *)
Definition restorePersistentVariables (w : World) : World :=
  {| config := config w;
     nextContextID := nextContextID w;
     calls := calls w;
     manager :=
       {| _domainUrl := Config.getItemOr (config w) DOMAIN_URL "UNKNOWN";
          _domain := _domain (manager w);
          _audioClient := _audioClient (manager w);
          onStateChange := onStateChange (manager w) |} |}.

(** [new Domain()]: the field initialisers, then the constructor body. *)
Definition Domain_new (cfg : gmap string string) (next : nat) : World :=
  restorePersistentVariables
    {| config := cfg;
       nextContextID := next;
       calls := [];
       manager :=
         {| _domainUrl := "UNKNOWN";
            _domain := None;
            _audioClient := None;
            onStateChange := Signal_new |} |}.

(** [storePersistentVariables] *)
Definition storePersistentVariables (w : World) : World :=
  {| config := Config.setItem (config w) DOMAIN_URL (_domainUrl (manager w));
     nextContextID := nextContextID w;
     calls := calls w;
     manager := manager w |}.

(** [getMetaverseUrl] *)
Definition getMetaverseUrl (w : World) : string :=
  Config.getItem (config w) DEFAULT_METAVERSE_URL.

(** [connect] *)
Definition connect (w : World) (pUrl : string) : World * Completion :=
  match _domain (manager w) with
  | Some _ => (w, Throw "Attempt to connect to domain when already connected")
  | None =>
      let url := cleanDomainUrl (config w) pUrl in
      let ctx := nextContextID w in
      ({| config := config w;
          nextContextID := S ctx;
          calls := calls w ++
            [NewDomainServer ctx; SetOnStateChanged ctx; ServerConnect ctx url];
          manager :=
            {| _domainUrl := url;
               _domain := Some {| contextID := ctx |};
               _audioClient := _audioClient (manager w);
               onStateChange := onStateChange (manager w) |} |}, Normal)
  end.

(** [disconnect] *)
Definition disconnect (w : World) : World * Completion :=
  match _domain (manager w) with
  | Some srv =>
      ({| config := config w;
          nextContextID := nextContextID w;
          calls := calls w ++ [ServerDisconnect (contextID srv)];
          manager :=
            {| _domainUrl := _domainUrl (manager w);
               _domain := None;
               _audioClient := _audioClient (manager w);
               onStateChange := onStateChange (manager w) |} |}, Normal)
  | None => (w, Normal)
  end.

(** The guarded construction at the head of [_handleOnDomainStateChange]. *)
Definition setupAudio (w : World) (pState : ConnectionState) : World :=
  if isConnectedState pState then
    match _domain (manager w), _audioClient (manager w) with
    | Some srv, None =>
        {| config := config w;
           nextContextID := nextContextID w;
           calls := calls w ++ [NewDomainAudio (contextID srv)];
           manager :=
             {| _domainUrl := _domainUrl (manager w);
                _domain := _domain (manager w);
                _audioClient := Some {| audioContextID := contextID srv |};
                onStateChange := onStateChange (manager w) |} |}
    | _, _ => w
    end
  else w.

(** [_handleOnDomainStateChange] *)
Definition _handleOnDomainStateChange
    (w : World) (pState : ConnectionState) (pInfo : string) : World :=
  let w1 := setupAudio w pState in
  {| config := config w1;
     nextContextID := nextContextID w1;
     calls := calls w1;
     manager :=
       {| _domainUrl := _domainUrl (manager w1);
          _domain := _domain (manager w1);
          _audioClient := _audioClient (manager w1);
          onStateChange :=
            Signal_emit (onStateChange (manager w1))
              {| em_domain := viewOf (manager w1);
                 em_newState := stateToString pState;
                 em_info := pInfo |} |} |}.

(** What can happen to a manager: a call of one of its public methods, or
    the SDK invoking the bound handler. A callback that the SDK makes
    from inside [connect] or [disconnect] runs while the session reference
    is set, so it is the same as a [StateChange] right after the
    [CallConnect], or right before the [CallDisconnect]. *)
Inductive Op : Type :=
| CallConnect (pUrl : string)
| CallDisconnect
| CallStorePersistent
| StateChange (pState : ConnectionState) (pInfo : string).

(** A [connect] that throws is caught by its caller; the manager goes on. *)
Definition step (w : World) (op : Op) : World :=
  match op with
  | CallConnect pUrl => fst (connect w pUrl)
  | CallDisconnect => fst (disconnect w)
  | CallStorePersistent => storePersistentVariables w
  | StateChange pState pInfo => _handleOnDomainStateChange w pState pInfo
  end.

Definition run (w : World) (ops : list Op) : World := fold_left step ops w.

(** The raw transitions of one session, delivered to the handler in order. *)
Definition deliver (w : World) (ts : list (ConnectionState * string)) : World :=
  fold_left (fun w t => _handleOnDomainStateChange w (fst t) (snd t)) ts w.

End DomainManager.

(** Number of [DomainAudio] constructions in a trace of SDK calls. *)
Definition isNewDomainAudio (c : SdkCall) : bool :=
  match c with NewDomainAudio _ => true | _ => false end.

Definition audioConstructions (cs : list SdkCall) : nat :=
  length (List.filter isNewDomainAudio cs).

(** Whether a sequence of raw transitions contains a Connected one. *)
Definition seenConnected (ts : list (ConnectionState * string)) : bool :=
  existsb (fun t => isConnectedState (fst t)) ts.

(** ** The history predicates of the audio-session invariant *)

(** Whether a Connection Session is live after a history, and whether a
    Connected state has been observed; [sessionStep] follows the
    specification's wording ("since the current Connection Session was
    created", "disconnect tears down both"), [lifetimeStep] counts every
    Connected state observed while some session was live. *)
Record Observed : Type := { live : bool; seen : bool }.

Definition sessionStep (o : Observed) (op : Op) : Observed :=
  match op with
  | CallConnect _ => if live o then o else {| live := true; seen := false |}
  | CallDisconnect => {| live := false; seen := false |}
  | CallStorePersistent => o
  | StateChange pState _ =>
      if live o && isConnectedState pState then {| live := true; seen := true |} else o
  end.

Definition lifetimeStep (o : Observed) (op : Op) : Observed :=
  match op with
  | CallConnect _ => {| live := true; seen := seen o |}
  | CallDisconnect => {| live := false; seen := seen o |}
  | CallStorePersistent => o
  | StateChange pState _ =>
      if live o && isConnectedState pState then {| live := true; seen := true |} else o
  end.

Definition connectedSinceSessionCreated (ops : list Op) : bool :=
  seen (fold_left sessionStep ops {| live := false; seen := false |}).

Definition connectedWhileSomeSessionLive (ops : list Op) : bool :=
  seen (fold_left lifetimeStep ops {| live := false; seen := false |}).

(** The history record [o] agrees with the manager's fields in [w]. *)
Definition tracks (w : World) (o : Observed) : Prop :=
  live o = isSet (_domain (manager w)) /\ seen o = isSet (_audioClient (manager w)).

(** ** The Shape entity builder *)

Section EntityBuilder.
(** The entity records ([IEntity]; [IShapeEntity] is the same record at
    run time, the cast has no effect) and the components of the other
    builders are declared outside the source at hand. *)
Variable IEntity : Type.
Variable OtherComponent : Type.

Inductive IComponent : Type :=
| ShapeEntityController (entity : IEntity)
| Other (c : OtherComponent).

(** Modelled from the spec: the Composite Object, "a container that owns an
    ordered/keyed collection of behavior components; the builder
    subsystem's only contract with it is add a component"; [GameObject]
    is not part of the source at hand. *)
Record GameObject : Type := { components : list IComponent }.

Definition addComponent (g : GameObject) (c : IComponent) : GameObject :=
  {| components := components g ++ [c] |}.

(** [ShapeEntityBuilder.build] *)
Definition build (gameObject : GameObject) (entity : IEntity) : GameObject :=
  addComponent gameObject (ShapeEntityController entity).

End EntityBuilder.

Arguments ShapeEntityController {IEntity OtherComponent} entity.
Arguments Other {IEntity OtherComponent} c.
Arguments components {IEntity OtherComponent} g.
Arguments addComponent {IEntity OtherComponent} g c.
Arguments build {IEntity OtherComponent} gameObject entity.

(** ** The read-only accessors of the manager *)

Section Accessors.
Context `{Imports}.

(** The [state] property of the SDK's [DomainServer] objects is kept by the
    SDK; [sdkState ctx] is what the server with context id [ctx] reports. *)
Variable sdkState : nat -> ConnectionState.

(** [get DomainUrl] *)
Definition DomainUrl (w : World) : string := _domainUrl (manager w).

(** [get DomainState]: [this.#_domain?.state ?? DomainServer.DISCONNECTED] *)
Definition DomainState (w : World) : ConnectionState :=
  match _domain (manager w) with
  | Some srv => sdkState (contextID srv)
  | None => DISCONNECTED
  end.

(** [get DomainStateAsString] *)
Definition DomainStateAsString (w : World) : string :=
  match _domain (manager w) with
  | Some srv => stateToString (sdkState (contextID srv))
  | None => stateToString DISCONNECTED
  end.

(** [get isConnected]: [this.#_domain?.state === DomainServer.CONNECTED] *)
Definition isConnected (w : World) : bool :=
  match _domain (manager w) with
  | Some srv => ConnectionState_eqb (sdkState (contextID srv)) CONNECTED
  | None => false
  end.

End Accessors.

(** ** Reading the trace of SDK calls and the history of a manager *)

(** The sessions on which [connect] has been called and [disconnect] has not
    been called since, oldest first. *)
Definition sessionCall (open : list nat) (c : SdkCall) : list nat :=
  match c with
  | ServerConnect ctx _ => open ++ [ctx]
  | ServerDisconnect ctx => List.filter (fun x => negb (Nat.eqb x ctx)) open
  | _ => open
  end.

Definition openSessions (cs : list SdkCall) : list nat :=
  fold_left sessionCall cs [].

(** The open sessions of the trace are the session the manager holds. *)
Definition oneSession (w : World) : Prop :=
  openSessions (calls w)
  = match _domain (manager w) with Some srv => [contextID srv] | None => [] end.

(** The number of audio constructions is one when an audio client is held,
    none otherwise. *)
Definition audioCounted (w : World) : Prop :=
  audioConstructions (calls w) = if isSet (_audioClient (manager w)) then 1 else 0.



(** The latest [connect] call on a server in a trace, if any. *)
Definition latestConnect (cs : list SdkCall) : option (nat * string) :=
  fold_left (fun r c => match c with ServerConnect ctx url => Some (ctx, url) | _ => r end)
            cs None.

(** The manager's URL and session are those of the latest [connect] call. *)
Definition urlOfLatestConnect (w : World) : Prop :=
  match latestConnect (calls w) with
  | Some (ctx, url) =>
      _domainUrl (manager w) = url /\
      (_domain (manager w) = None \/ _domain (manager w) = Some {| contextID := ctx |})
  | None => _domain (manager w) = None
  end.

(** The raw state changes of a history, in order. *)
Definition stateChangesOf (ops : list Op) : list (ConnectionState * string) :=
  flat_map (fun op =>
              match op with
              | StateChange pState pInfo => [(pState, pInfo)]
              | _ => []
              end) ops.

(** The state string and info string of an emission. *)
Definition emissionArgs (e : Emission) : string * string :=
  (em_newState e, em_info e).

(** Whether a live session is on record after a history. *)
Definition sessionLiveAfter (ops : list Op) : bool :=
  live (fold_left lifetimeStep ops {| live := false; seen := false |}).

(** ** The ordering of places in the first-time setup page *)

(** A JavaScript number as the comparison of attendances sees it: a whole
    number, or [NaN], which is also what a missing value becomes in [>] and
    [<]. *)
Inductive JSNumber : Type :=
| NaN
| Num (z : Z).

(** [x > y] and [x < y] on numbers: false as soon as one side is [NaN]. *)
Definition numberGt (x y : JSNumber) : bool :=
  match x, y with
  | Num n, Num m => (m <? n)%Z
  | _, _ => false
  end.

Definition numberLt (x y : JSNumber) : bool :=
  match x, y with
  | Num n, Num m => (n <? m)%Z
  | _, _ => false
  end.

(** The two fields of a [PlaceEntry] that the page reads. *)
Record PlaceEntry : Type := {
  name : string;
  currentAttendance : JSNumber
}.

(** The comparison function given to [sort] in [filteredAndSortedPlaces]. *)
Definition comparePlaces (a b : PlaceEntry) : Z :=
  if numberGt (currentAttendance a) (currentAttendance b) then (-1)%Z
  else if numberLt (currentAttendance a) (currentAttendance b) then 1%Z
  else if String.ltb (JS.toLowerCase (name a)) (JS.toLowerCase (name b)) then (-1)%Z
  else if String.ltb (JS.toLowerCase (name b)) (JS.toLowerCase (name a)) then 1%Z
  else 0%Z.

(** The last three branches of the comparison: the order of the lower-cased
    names alone. *)
Definition compareNames (a b : PlaceEntry) : Z :=
  match String.compare (JS.toLowerCase (name a)) (JS.toLowerCase (name b)) with
  | Lt => (-1)%Z
  | Eq => 0%Z
  | Gt => 1%Z
  end.


(** Defaults under which normalisation is not idempotent. *)
Definition wssConfig : gmap string string :=
  <["Default.Domain.Protocol" := "wss:"]> (<["Default.Domain.Port" := "40102"]> ∅).

Definition upperCaseConfig : gmap string string :=
  <["Default.Domain.Protocol" := "WS:"]> (<["Default.Domain.Port" := "40102"]> ∅).

Definition namedPortConfig : gmap string string :=
  <["Default.Domain.Protocol" := "ws:"]> (<["Default.Domain.Port" := "http"]> ∅).

(** A sample configuration for evaluating the model: the key names and the
    default values "ws:" and "40102". *)
#[local] Instance sampleImports : Imports := {|
  stateToString s :=
    match s with
    | DISCONNECTED => "DISCONNECTED" | CONNECTING => "CONNECTING"
    | CONNECTED => "CONNECTED" | REFUSED => "REFUSED" | ERROR => "ERROR"
    end;
  DEFAULT_METAVERSE_URL := "Default.Metaverse.Url";
  DEFAULT_DOMAIN_PROTOCOL := "Default.Domain.Protocol";
  DEFAULT_DOMAIN_PORT := "Default.Domain.Port"
|}.

Definition sampleConfig : gmap string string :=
  <["Default.Domain.Protocol" := "ws:"]> (<["Default.Domain.Port" := "40102"]> ∅).

(** Sample histories of a manager created over the sample configuration. *)
Definition sampleManager : World := Domain_new sampleConfig 0.

Definition sampleSession : list Op :=
  [CallConnect "example.com"; StateChange CONNECTED ""; CallDisconnect].

Definition sampleReconnect : list Op :=
  (sampleSession ++ [CallConnect "other.example"])%list.

Definition sampleTransitions : list (ConnectionState * string) :=
  [(DISCONNECTED, ""); (CONNECTING, ""); (CONNECTED, ""); (DISCONNECTED, "")].

(** * Properties *)

Example clean_sample_1 : cleanDomainUrl sampleConfig "http://Example.com" = "ws://example.com:40102".
Proof. vm_compute. reflexivity. Qed.
Example clean_sample_2 : cleanDomainUrl sampleConfig "https://example.com:400" = "ws://example.com:400".
Proof. vm_compute. reflexivity. Qed.
Example clean_sample_3 : cleanDomainUrl sampleConfig "ws://example.com:" = "ws://example.com:".
Proof. vm_compute. reflexivity. Qed.

(** ** String lemmas *)

Lemma append_cons c (a b : string) : String c a +:+ b = String c (a +:+ b).
Proof. reflexivity. Qed.

Lemma append_empty (b : string) : "" +:+ b = b.
Proof. reflexivity. Qed.

Lemma toLowerChar_idem c : JS.toLowerChar (JS.toLowerChar c) = JS.toLowerChar c.
Proof. destruct c as [[] [] [] [] [] [] [] []]; reflexivity. Qed.

Lemma toLowerChar_digit c : JS.isDigit c = true -> JS.toLowerChar c = c.
Proof. destruct c as [[] [] [] [] [] [] [] []]; intros Hd; try reflexivity; discriminate Hd. Qed.

Lemma toLowerCase_idem s : JS.toLowerCase (JS.toLowerCase s) = JS.toLowerCase s.
Proof.
  induction s as [|c s IH]; simpl; [reflexivity|].
  now rewrite toLowerChar_idem, IH.
Qed.

Lemma toLowerCase_app a b :
  JS.toLowerCase (a +:+ b) = JS.toLowerCase a +:+ JS.toLowerCase b.
Proof.
  induction a as [|c a IH]; [reflexivity|].
  rewrite append_cons; simpl. now rewrite IH, append_cons.
Qed.

Lemma toLowerCase_substring n s :
  JS.toLowerCase (JS.substring n s) = JS.substring n (JS.toLowerCase s).
Proof.
  revert s; induction n as [|n IH]; intros s; simpl; [reflexivity|].
  destruct s as [|c s]; simpl; [reflexivity|]. apply IH.
Qed.

Lemma toLowerCase_digits s : JS.digitsToEnd s = true -> JS.toLowerCase s = s.
Proof.
  induction s as [|c s IH]; simpl; [reflexivity|].
  intros [Hc Hs]%andb_true_iff. now rewrite toLowerChar_digit, IH.
Qed.

Lemma string_app_assoc (a b c : string) : (a +:+ b) +:+ c = a +:+ (b +:+ c).
Proof.
  induction a as [|x a IH]; [reflexivity|].
  now rewrite !append_cons, IH.
Qed.

Lemma startsWith_app s t p :
  JS.startsWith s p = true -> JS.startsWith (s +:+ t) p = true.
Proof.
  revert s; induction p as [|pc p IH]; intros s; simpl; [reflexivity|].
  destruct s as [|sc s]; [discriminate|]. rewrite append_cons.
  destruct (Ascii.eqb sc pc); [apply IH | discriminate].
Qed.

(** A string that starts with "ws://" starts with neither http prefix. *)
Lemma startsWith_ws_not_http s :
  JS.startsWith s "ws://" = true ->
  JS.startsWith s "http://" = false /\ JS.startsWith s "https://" = false.
Proof.
  destruct s as [|c s]; simpl; [discriminate|].
  destruct (Ascii.eqb c "w") eqn:Hw; [|discriminate].
  apply Ascii.eqb_eq in Hw; subst c. intros _. split; reflexivity.
Qed.

(** *** The port pattern *)

Lemma portRegexExecFrom_cons i c s :
  JS.portRegexExecFrom i (String c s) =
  match JS.portAtHead (String c s) with
  | Some m => Some (i, m)
  | None => JS.portRegexExecFrom (S i) s
  end.
Proof. reflexivity. Qed.

Lemma portRegexExecFrom_isArray i j s :
  JS.Array_isArray (JS.portRegexExecFrom i s) = JS.Array_isArray (JS.portRegexExecFrom j s).
Proof.
  revert i j; induction s as [|c s IH]; intros i j.
  - reflexivity.
  - rewrite !portRegexExecFrom_cons.
    destruct (JS.portAtHead (String c s)); [reflexivity|]. apply IH.
Qed.

Lemma portRegexExec_cons c s :
  JS.Array_isArray (JS.portRegexExec s) = true ->
  JS.Array_isArray (JS.portRegexExec (String c s)) = true.
Proof.
  unfold JS.portRegexExec; intros Hs. rewrite portRegexExecFrom_cons.
  destruct (JS.portAtHead (String c s)); [reflexivity|].
  now rewrite (portRegexExecFrom_isArray 1 0).
Qed.

Lemma portRegexExec_app a b :
  JS.Array_isArray (JS.portRegexExec b) = true ->
  JS.Array_isArray (JS.portRegexExec (a +:+ b)) = true.
Proof.
  intros Hb; induction a as [|c a IH]; [exact Hb|].
  rewrite append_cons. now apply portRegexExec_cons.
Qed.

Lemma portRegexExec_port n :
  JS.digitsToEnd n = true ->
  JS.Array_isArray (JS.portRegexExec (":" +:+ n)) = true.
Proof.
  intros Hn. rewrite append_cons, append_empty.
  unfold JS.portRegexExec. simpl. now rewrite Hn.
Qed.

(** *** Last code unit *)

Lemma lastChar_app a b :
  lastChar (a +:+ b) = match lastChar b with Some d => Some d | None => lastChar a end.
Proof.
  induction a as [|c a IH].
  - rewrite append_empty. now destruct (lastChar b).
  - rewrite append_cons. simpl. rewrite IH. now destruct (lastChar b).
Qed.

Lemma lastChar_toLowerCase s :
  lastChar s = Some ":"%char -> lastChar (JS.toLowerCase s) = Some ":"%char.
Proof.
  induction s as [|c s IH]; simpl; [discriminate|].
  destruct (lastChar s) as [d|] eqn:Hd.
  - intros Hs. now rewrite (IH Hs).
  - intros [= ->]. destruct s as [|c' s]; [reflexivity|].
    simpl in Hd. destruct (lastChar s); discriminate.
Qed.

Lemma lastChar_substring n s p :
  JS.startsWith s p = true -> String.length p = n ->
  lastChar p <> Some ":"%char ->
  lastChar s = Some ":"%char -> lastChar (JS.substring n s) = Some ":"%char.
Proof.
  revert s n; induction p as [|pc p IH]; intros s n Hp <- Hl Hs; simpl; [exact Hs|].
  destruct s as [|sc s]; simpl in *; [discriminate|].
  destruct (Ascii.eqb sc pc) eqn:Hc; [|discriminate].
  apply Ascii.eqb_eq in Hc; subst sc.
  destruct (lastChar s) as [d|] eqn:Hd.
  - apply (IH s _ Hp eq_refl); [|congruence].
    intros Hlp. apply Hl. now rewrite Hlp.
  - destruct s as [|c' s].
    + destruct p; [|discriminate]. simpl in Hl. congruence.
    + simpl in Hd. destruct (lastChar s); discriminate.
Qed.

Lemma lastChar_colon_port s :
  lastChar s = Some ":"%char -> JS.Array_isArray (JS.portRegexExec s) = true.
Proof.
  induction s as [|c s IH]; simpl; [discriminate|].
  destruct (lastChar s) as [d|] eqn:Hd.
  - intros Hs. apply portRegexExec_cons, IH, Hs.
  - intros [= ->]. destruct s as [|c' s]; [reflexivity|].
    simpl in Hd. destruct (lastChar s); discriminate.
Qed.

Lemma lastChar_colon_split s :
  lastChar s = Some ":"%char -> exists y, s = y +:+ ":".
Proof.
  induction s as [|c s IH]; simpl; [discriminate|].
  destruct (lastChar s) as [d|] eqn:Hd.
  - intros Hs. destruct (IH Hs) as [y Hy]. exists (String c y).
    now rewrite append_cons, <- Hy.
  - intros [= ->]. destruct s as [|c' s]; [now exists ""|].
    simpl in Hd. destruct (lastChar s); discriminate.
Qed.

Lemma digitsToEnd_lastChar s c :
  JS.digitsToEnd s = true -> lastChar s = Some c -> JS.isDigit c = true.
Proof.
  induction s as [|x s IH]; simpl; [discriminate|].
  intros [Hx Hs]%andb_true_iff. destruct (lastChar s) as [d|].
  - intros [= ->]. now apply IH.
  - now intros [= ->].
Qed.

(** A string whose last code unit is neither a colon nor a digit has no
    port suffix. *)
Lemma lastChar_other_no_port s c :
  lastChar s = Some c -> c <> ":"%char -> JS.isDigit c = false ->
  JS.portRegexExec s = None.
Proof.
  intros Hl Hc Hd. unfold JS.portRegexExec. generalize 0.
  induction s as [|x s IH]; intros i; [reflexivity|].
  rewrite portRegexExecFrom_cons.
  assert (Hhead : JS.portAtHead (String x s) = None).
  { unfold JS.portAtHead.
    destruct (Ascii.eqb x ":") eqn:Hx.
    - apply Ascii.eqb_eq in Hx; subst x.
      destruct (JS.digitsToEnd s) eqn:Hs; [|reflexivity].
      simpl in Hl. destruct (lastChar s) as [d|] eqn:Hls.
      + injection Hl as ->. rewrite (digitsToEnd_lastChar s c Hs Hls) in Hd. discriminate.
      + congruence.
    - destruct x as [[] [] [] [] [] [] [] []]; try reflexivity; discriminate Hx. }
  rewrite Hhead. simpl in Hl. destruct (lastChar s) as [d|] eqn:Hls.
  - now apply IH.
  - destruct s as [|y s]; [reflexivity|]. simpl in Hls. destruct (lastChar s); discriminate.
Qed.

(** ** URL normalisation *)

Section CleanDomainUrlFacts.
Context `{Imports}.

Lemma cleanDomainUrl_scheme_lastColon cfg s :
  lastChar s = Some ":"%char ->
  lastChar (cleanDomainUrl_scheme cfg s) = Some ":"%char.
Proof.
  intros Hs. unfold cleanDomainUrl_scheme.
  pose proof (lastChar_toLowerCase s Hs) as Hu.
  set (u := JS.toLowerCase s) in *.
  assert (Hv : lastChar (if JS.startsWith u "http://" then JS.substring 7 u else u)
               = Some ":"%char).
  { destruct (JS.startsWith u "http://") eqn:Hp; [|exact Hu].
    apply (lastChar_substring 7 u "http://" Hp eq_refl); [discriminate | exact Hu]. }
  set (v := if JS.startsWith u "http://" then JS.substring 7 u else u) in *.
  assert (Hw : lastChar (if JS.startsWith v "https://" then JS.substring 8 v else v)
               = Some ":"%char).
  { destruct (JS.startsWith v "https://") eqn:Hp; [|exact Hv].
    apply (lastChar_substring 8 v "https://" Hp eq_refl); [discriminate | exact Hv]. }
  set (w := if JS.startsWith v "https://" then JS.substring 8 v else v) in *.
  destruct (JS.startsWith w "ws://"); simpl; [exact Hw|].
  now rewrite !lastChar_app, Hw.
Qed.

Lemma cleanDomainUrl_scheme_lower cfg s :
  JS.toLowerCase (Config.getItem cfg DEFAULT_DOMAIN_PROTOCOL)
    = Config.getItem cfg DEFAULT_DOMAIN_PROTOCOL ->
  JS.toLowerCase (cleanDomainUrl_scheme cfg s) = cleanDomainUrl_scheme cfg s.
Proof.
  intros HP. unfold cleanDomainUrl_scheme.
  pose proof (toLowerCase_idem s) as Hu.
  set (u := JS.toLowerCase s) in *.
  assert (Hv : JS.toLowerCase (if JS.startsWith u "http://" then JS.substring 7 u else u)
               = if JS.startsWith u "http://" then JS.substring 7 u else u).
  { destruct (JS.startsWith u "http://"); [|exact Hu].
    now rewrite toLowerCase_substring, Hu. }
  set (v := if JS.startsWith u "http://" then JS.substring 7 u else u) in *.
  assert (Hw : JS.toLowerCase (if JS.startsWith v "https://" then JS.substring 8 v else v)
               = if JS.startsWith v "https://" then JS.substring 8 v else v).
  { destruct (JS.startsWith v "https://"); [|exact Hv].
    now rewrite toLowerCase_substring, Hv. }
  set (w := if JS.startsWith v "https://" then JS.substring 8 v else v) in *.
  destruct (JS.startsWith w "ws://"); simpl; [exact Hw|].
  now rewrite !toLowerCase_app, HP, Hw.
Qed.

Lemma cleanDomainUrl_scheme_ws cfg s :
  JS.startsWith (Config.getItem cfg DEFAULT_DOMAIN_PROTOCOL +:+ "//") "ws://" = true ->
  JS.startsWith (cleanDomainUrl_scheme cfg s) "ws://" = true.
Proof.
  intros HP. unfold cleanDomainUrl_scheme.
  set (u := JS.toLowerCase s).
  set (v := if JS.startsWith u "http://" then JS.substring 7 u else u).
  set (w := if JS.startsWith v "https://" then JS.substring 8 v else v).
  destruct (JS.startsWith w "ws://") eqn:Hw; cbn [negb]; [exact Hw|].
  now apply startsWith_app.
Qed.

(** A string in normal form (lower case, "ws://" in front, a port suffix
    at the end) is left as it is. *)
Lemma cleanDomainUrl_fixed cfg r :
  JS.toLowerCase r = r ->
  JS.startsWith r "ws://" = true ->
  JS.Array_isArray (JS.portRegexExec r) = true ->
  cleanDomainUrl cfg r = r.
Proof.
  intros Hl Hw Hp. unfold cleanDomainUrl, cleanDomainUrl_scheme.
  rewrite Hl. destruct (startsWith_ws_not_http r Hw) as [-> ->].
  rewrite Hw. simpl. now rewrite Hp.
Qed.

End CleanDomainUrlFacts.

(** C3. With P the configured default protocol and N the configured default
    port, [cleanDomainUrl] maps "http://example.com" to P//example.com:N,
    "https://example.com:400" to P//example.com:400 (port kept, no default
    appended) and "example.com" to P//example.com:N. *)
Theorem cleanDomainUrl_examples `{Imports} (cfg : gmap string string) :
  cleanDomainUrl cfg "http://example.com"
    = Config.getItem cfg DEFAULT_DOMAIN_PROTOCOL +:+ "//example.com:"
        +:+ Config.getItem cfg DEFAULT_DOMAIN_PORT /\
  cleanDomainUrl cfg "https://example.com:400"
    = Config.getItem cfg DEFAULT_DOMAIN_PROTOCOL +:+ "//example.com:400" /\
  cleanDomainUrl cfg "example.com"
    = Config.getItem cfg DEFAULT_DOMAIN_PROTOCOL +:+ "//example.com:"
        +:+ Config.getItem cfg DEFAULT_DOMAIN_PORT.
Proof.
  set (P := Config.getItem cfg DEFAULT_DOMAIN_PROTOCOL).
  set (N := Config.getItem cfg DEFAULT_DOMAIN_PORT).
  assert (Hscheme1 : cleanDomainUrl_scheme cfg "http://example.com" = P +:+ "//example.com")
    by exact (string_app_assoc P "//" "example.com").
  assert (Hscheme2 : cleanDomainUrl_scheme cfg "https://example.com:400"
                     = P +:+ "//example.com:400")
    by exact (string_app_assoc P "//" "example.com:400").
  assert (Hscheme3 : cleanDomainUrl_scheme cfg "example.com" = P +:+ "//example.com")
    by exact (string_app_assoc P "//" "example.com").
  assert (Hnone : JS.portRegexExec (P +:+ "//example.com") = None).
  { apply (lastChar_other_no_port _ "m"); [|discriminate|reflexivity].
    now rewrite lastChar_app. }
  assert (Hsome : JS.Array_isArray (JS.portRegexExec (P +:+ "//example.com:400")) = true).
  { now apply portRegexExec_app. }
  assert (Happ : ((P +:+ "//example.com") +:+ ":") +:+ N = P +:+ "//example.com:" +:+ N).
  { now rewrite !string_app_assoc. }
  unfold cleanDomainUrl. rewrite Hscheme1, Hscheme2, Hscheme3, Hnone, Hsome.
  cbn [JS.Array_isArray negb]. fold P N. now rewrite Happ.
Qed.

(** C4, as the code has it. URL normalisation is idempotent when the
    configured default protocol is the websocket scheme in lower-case ASCII
    and the configured default port is a run of digits: then
    [cleanDomainUrl (cleanDomainUrl x) = cleanDomainUrl x] for every input
    string x. *)
Theorem cleanDomainUrl_idempotent `{Imports} (cfg : gmap string string) (x : string) :
  websocketDefaults cfg ->
  cleanDomainUrl cfg (cleanDomainUrl cfg x) = cleanDomainUrl cfg x.
Proof.
  intros (Hascii & Hlow & Hws & Hdigits).
  pose proof (cleanDomainUrl_scheme_lower cfg x Hlow) as Hl.
  pose proof (cleanDomainUrl_scheme_ws cfg x Hws) as Hw.
  apply cleanDomainUrl_fixed; unfold cleanDomainUrl;
    destruct (JS.Array_isArray (JS.portRegexExec (cleanDomainUrl_scheme cfg x))) eqn:Hp;
    cbn [negb]; try assumption.
  - rewrite !toLowerCase_app, Hl. f_equal. now apply toLowerCase_digits.
  - now apply startsWith_app, startsWith_app.
  - rewrite string_app_assoc. apply portRegexExec_app. now apply portRegexExec_port.
Qed.

(** C10. For every input ending in a bare colon, the port pattern (which
    accepts zero digits) matches, the default port is not appended, and the
    returned URL ends in the bare colon; "example.com:" becomes
    P//example.com: . *)
Theorem cleanDomainUrl_bare_colon `{Imports} (cfg : gmap string string) (x : string) :
  JS.portAtHead ":" = Some ":" /\
  JS.Array_isArray (JS.portRegexExec (cleanDomainUrl_scheme cfg (x +:+ ":"))) = true /\
  cleanDomainUrl cfg (x +:+ ":") = cleanDomainUrl_scheme cfg (x +:+ ":") /\
  (exists y, cleanDomainUrl cfg (x +:+ ":") = y +:+ ":") /\
  cleanDomainUrl cfg "example.com:"
    = Config.getItem cfg DEFAULT_DOMAIN_PROTOCOL +:+ "//example.com:".
Proof.
  assert (Hlast : forall z, lastChar (cleanDomainUrl_scheme cfg (z +:+ ":")) = Some ":"%char).
  { intros z. apply cleanDomainUrl_scheme_lastColon. now rewrite lastChar_app. }
  assert (Hkeep : forall z, cleanDomainUrl cfg (z +:+ ":") = cleanDomainUrl_scheme cfg (z +:+ ":")).
  { intros z. unfold cleanDomainUrl. now rewrite (lastChar_colon_port _ (Hlast z)). }
  split; [reflexivity|].
  split; [apply lastChar_colon_port, Hlast|].
  split; [apply Hkeep|].
  split.
  - rewrite Hkeep. apply lastChar_colon_split, Hlast.
  - transitivity (cleanDomainUrl_scheme cfg ("example.com" +:+ ":"));
      [exact (Hkeep "example.com")|].
    exact (string_app_assoc _ "//" "example.com:").
Qed.

(** The sample configuration has websocket defaults. *)
Lemma cleanDomainUrl_idempotent_witness :
  websocketDefaults sampleConfig /\
  cleanDomainUrl sampleConfig (cleanDomainUrl sampleConfig "HTTP://Example.com")
    = cleanDomainUrl sampleConfig "HTTP://Example.com".
Proof.
  assert (Hcfg : websocketDefaults sampleConfig).
  { repeat split; vm_compute; reflexivity. }
  split; [exact Hcfg | exact (cleanDomainUrl_idempotent sampleConfig "HTTP://Example.com" Hcfg)].
Defined.

(** C4 as stated fails for other defaults. With "wss:" as default protocol
    the result does not pass the "ws://" test and the protocol is put in
    front a second time; with "WS:" the second pass lower-cases the prefix
    that the first one added; with a default port that is not a run of
    digits the port is appended a second time. *)
Lemma cleanDomainUrl_idempotent_counterexample :
  (cleanDomainUrl wssConfig "example.com" = "wss://example.com:40102" /\
   cleanDomainUrl wssConfig (cleanDomainUrl wssConfig "example.com")
     = "wss://wss://example.com:40102" /\
   cleanDomainUrl wssConfig (cleanDomainUrl wssConfig "example.com")
     <> cleanDomainUrl wssConfig "example.com") /\
  cleanDomainUrl upperCaseConfig (cleanDomainUrl upperCaseConfig "example.com")
    <> cleanDomainUrl upperCaseConfig "example.com" /\
  cleanDomainUrl namedPortConfig (cleanDomainUrl namedPortConfig "example.com")
    <> cleanDomainUrl namedPortConfig "example.com".
Proof. vm_compute. repeat split; discriminate. Qed.

(** With the secure websocket scheme "wss:" as default protocol the premise
    of idempotence fails, and so does idempotence: the prefix is put in
    front a second time. *)
Example cleanDomainUrl_wss_twice :
  let cfg : gmap string string :=
    <["Default.Domain.Protocol" := "wss:"]> (<["Default.Domain.Port" := "40102"]> ∅) in
  cleanDomainUrl cfg "example.com" = "wss://example.com:40102" /\
  cleanDomainUrl cfg (cleanDomainUrl cfg "example.com") = "wss://wss://example.com:40102".
Proof. vm_compute. split; reflexivity. Qed.

(** ** connect and disconnect *)

(** C5. [connect] while a Connection Session is live throws the
    already-connected error and changes nothing: the session, the stored
    URL, the audio client and the rest of the world are as before. *)
Theorem connect_while_connected `{Imports} (w : World) (pUrl : string) (srv : DomainServer) :
  _domain (manager w) = Some srv ->
  connect w pUrl = (w, Throw "Attempt to connect to domain when already connected").
Proof. intros Hlive. unfold connect. now rewrite Hlive. Qed.

Lemma connect_while_connected_witness :
  _domain (manager (fst (connect sampleManager "example.com"))) = Some {| contextID := 0 |} /\
  connect (fst (connect sampleManager "example.com")) "other.example"
    = (fst (connect sampleManager "example.com"),
       Throw "Attempt to connect to domain when already connected").
Proof.
  split; [reflexivity|].
  apply (connect_while_connected _ "other.example" {| contextID := 0 |}).
  reflexivity.
Defined.

(** C8. [disconnect] with no Connection Session completes normally and
    leaves the manager (URL, session reference, audio client, Signal) and
    the rest of the world unchanged. *)
Theorem disconnect_without_session `{Imports} (w : World) :
  _domain (manager w) = None ->
  disconnect w = (w, Normal).
Proof. intros Hnone. unfold disconnect. now rewrite Hnone. Qed.

Lemma disconnect_without_session_witness :
  _domain (manager sampleManager) = None /\
  disconnect sampleManager = (sampleManager, Normal).
Proof.
  split; [reflexivity|].
  apply disconnect_without_session. reflexivity.
Defined.

(** C2, as the code has it. [connect] with no live session sets the
    manager's URL to the normalised one, constructs the session, binds the
    handler and issues the session's connect, and completes normally; it
    does not write the Config store. The URL reaches the store, under the
    domain-URL key, when [storePersistentVariables] is called. *)
Theorem connect_does_not_persist `{Imports} (w : World) (pUrl : string) :
  _domain (manager w) = None ->
  let url := cleanDomainUrl (config w) pUrl in
  let ctx := nextContextID w in
  let w' := fst (connect w pUrl) in
  snd (connect w pUrl) = Normal /\
  config w' = config w /\
  _domainUrl (manager w') = url /\
  _domain (manager w') = Some {| contextID := ctx |} /\
  calls w' = (calls w ++
    [NewDomainServer ctx; SetOnStateChanged ctx; ServerConnect ctx url])%list /\
  config (storePersistentVariables w') !! DOMAIN_URL = Some url.
Proof.
  intros Hnone. unfold connect. rewrite Hnone. cbn.
  repeat split. unfold Config.setItem. apply lookup_insert_eq.
Qed.

Lemma connect_does_not_persist_witness :
  _domain (manager sampleManager) = None /\
  config (fst (connect sampleManager "example.com")) = sampleConfig /\
  config (storePersistentVariables (fst (connect sampleManager "example.com"))) !! DOMAIN_URL
    = Some "ws://example.com:40102".
Proof.
  split; [reflexivity|].
  destruct (connect_does_not_persist sampleManager "example.com" eq_refl)
    as (_ & Hcfg & _ & _ & _ & Hstore).
  split; [exact Hcfg | exact Hstore].
Defined.

(** C2 as stated fails: after [connect] the store has no entry under the
    domain-URL key, where the claim has the normalised URL. *)
Lemma connect_persists_counterexample :
  snd (connect sampleManager "example.com") = Normal /\
  cleanDomainUrl sampleConfig "example.com" = "ws://example.com:40102" /\
  config (fst (connect sampleManager "example.com")) !! DOMAIN_URL = None /\
  config (fst (connect sampleManager "example.com")) !! DOMAIN_URL
    <> Some (cleanDomainUrl sampleConfig "example.com").
Proof. vm_compute. repeat split; discriminate. Qed.

(** ** The state-change handler *)

Section HandlerFacts.
Context `{Imports}.

Lemma handler_emitted w pState pInfo :
  emitted (onStateChange (manager (_handleOnDomainStateChange w pState pInfo)))
  = (emitted (onStateChange (manager w)) ++
      [{| em_domain := viewOf (manager (_handleOnDomainStateChange w pState pInfo));
          em_newState := stateToString pState;
          em_info := pInfo |}])%list.
Proof.
  destruct w as [cfg n cs [url d a sig]].
  unfold _handleOnDomainStateChange, setupAudio; cbn.
  destruct (isConnectedState pState); [|reflexivity].
  destruct d, a; reflexivity.
Qed.

Lemma deliver_cons w t ts :
  deliver w (t :: ts) = deliver (_handleOnDomainStateChange w (fst t) (snd t)) ts.
Proof. reflexivity. Qed.

Lemma deliver_snoc w ts t :
  deliver w (ts ++ [t]) = _handleOnDomainStateChange (deliver w ts) (fst t) (snd t).
Proof. unfold deliver. now rewrite fold_left_app. Qed.

Lemma audioConstructions_snoc cs c :
  audioConstructions (cs ++ [c])
  = audioConstructions cs + (if isNewDomainAudio c then 1 else 0).
Proof.
  unfold audioConstructions. rewrite List.filter_app, length_app. simpl.
  now destruct (isNewDomainAudio c).
Qed.

(** One handler call in a live session. *)
Lemma handler_live w pState pInfo srv :
  _domain (manager w) = Some srv ->
  let w' := _handleOnDomainStateChange w pState pInfo in
  _domain (manager w') = Some srv /\
  match _audioClient (manager w) with
  | Some a =>
      _audioClient (manager w') = Some a /\
      audioConstructions (calls w') = audioConstructions (calls w)
  | None =>
      _audioClient (manager w')
        = (if isConnectedState pState
           then Some {| audioContextID := contextID srv |} else None) /\
      audioConstructions (calls w')
        = audioConstructions (calls w) + (if isConnectedState pState then 1 else 0)
  end.
Proof.
  destruct w as [cfg n cs [url d a sig]]; cbn -[audioConstructions]. intros ->.
  unfold _handleOnDomainStateChange, setupAudio; cbn -[audioConstructions].
  destruct a as [a|]; destruct (isConnectedState pState); cbn -[audioConstructions];
    rewrite ?audioConstructions_snoc; cbn -[audioConstructions]; auto with arith.
Qed.

(** A run of handler calls in a live session. *)
Lemma deliver_live ts : forall w srv,
  _domain (manager w) = Some srv ->
  _domain (manager (deliver w ts)) = Some srv /\
  match _audioClient (manager w) with
  | Some a =>
      _audioClient (manager (deliver w ts)) = Some a /\
      audioConstructions (calls (deliver w ts)) = audioConstructions (calls w)
  | None =>
      _audioClient (manager (deliver w ts))
        = (if seenConnected ts
           then Some {| audioContextID := contextID srv |} else None) /\
      audioConstructions (calls (deliver w ts))
        = audioConstructions (calls w) + (if seenConnected ts then 1 else 0)
  end.
Proof.
  induction ts as [|[st info] ts IH]; intros w srv Hsrv.
  - cbn. rewrite Hsrv. destruct (_audioClient (manager w)); auto with arith.
  - rewrite deliver_cons. cbn [fst snd].
    destruct (handler_live w st info srv Hsrv) as [Hsrv' Hstep].
    destruct (IH _ srv Hsrv') as [Hsrv'' Hrest].
    split; [exact Hsrv''|].
    unfold seenConnected; cbn [existsb fst]. fold (seenConnected ts).
    destruct (_audioClient (manager w)) as [a|].
    + destruct Hstep as [Ha Hn]. rewrite Ha in Hrest.
      destruct Hrest as [Ha' Hn']. split; congruence.
    + destruct Hstep as [Ha Hn]. destruct (isConnectedState st); cbn [orb].
      * rewrite Ha in Hrest. destruct Hrest as [Ha' Hn']. split; congruence.
      * rewrite Ha in Hrest. destruct Hrest as [Ha' Hn'].
        split; [exact Ha'|]. rewrite Hn', Hn. lia.
Qed.

End HandlerFacts.

(** C6. Every raw transition delivered to the handler produces exactly one
    emission on [onStateChange], carrying the manager (as it is at that
    moment), the display string of the new state and the info string; the
    emissions are in the order of the transitions. *)
Theorem one_emission_per_transition `{Imports}
    (w : World) (ts : list (ConnectionState * string)) :
  emitted (onStateChange (manager (deliver w ts)))
  = (emitted (onStateChange (manager w)) ++
      imap (fun i t =>
              {| em_domain := viewOf (manager (deliver w (take (S i) ts)));
                 em_newState := stateToString (fst t);
                 em_info := snd t |}) ts)%list.
Proof.
  revert w; induction ts as [|t ts IH]; intros w.
  - cbn. now rewrite app_nil_r.
  - rewrite deliver_cons, IH, handler_emitted, <- app_assoc. reflexivity.
Qed.

(** The sequence Disconnected, Connecting, Connected, Disconnected in a
    fresh session: four emissions, in that order. *)
Example four_transitions_four_emissions :
  map (fun e => (em_newState e, em_info e))
      (emitted (onStateChange (manager
         (deliver (fst (connect sampleManager "example.com")) sampleTransitions))))
  = [("DISCONNECTED", ""); ("CONNECTING", ""); ("CONNECTED", ""); ("DISCONNECTED", "")].
Proof. vm_compute. reflexivity. Qed.

(** C7, as the code has it. In the lifetime of one Connection Session (one
    [connect], then any transitions) at most one [DomainAudio] is
    constructed. When the manager holds no audio client at [connect], the
    construction happens at the first Connected transition, from the
    session's context id, and never again; when an audio client is left
    from an earlier session, it is kept and none is constructed. *)
Theorem audio_constructed_at_first_connected `{Imports}
    (w : World) (pUrl : string)
    (ts : list (ConnectionState * string)) (t : ConnectionState * string) :
  _domain (manager w) = None ->
  let w1 := fst (connect w pUrl) in
  audioConstructions (calls (deliver w1 ts)) <= S (audioConstructions (calls w1)) /\
  match _audioClient (manager w) with
  | None =>
      audioConstructions (calls (deliver w1 ts))
        = audioConstructions (calls w1) + (if seenConnected ts then 1 else 0) /\
      _audioClient (manager (deliver w1 ts))
        = (if seenConnected ts
           then Some {| audioContextID := nextContextID w |} else None) /\
      audioConstructions (calls (deliver w1 (ts ++ [t])))
        = audioConstructions (calls (deliver w1 ts))
          + (if isConnectedState (fst t) && negb (seenConnected ts) then 1 else 0)
  | Some a =>
      audioConstructions (calls (deliver w1 ts)) = audioConstructions (calls w1) /\
      _audioClient (manager (deliver w1 ts)) = Some a
  end.
Proof.
  intros Hnone w1.
  assert (Hsrv : _domain (manager w1) = Some {| contextID := nextContextID w |}).
  { subst w1. unfold connect. now rewrite Hnone. }
  assert (Haudio : _audioClient (manager w1) = _audioClient (manager w)).
  { subst w1. unfold connect. now rewrite Hnone. }
  pose proof (deliver_live ts w1 _ Hsrv) as [_ Hts].
  pose proof (deliver_live (ts ++ [t]) w1 _ Hsrv) as [_ Hts'].
  rewrite Haudio in Hts, Hts'.
  destruct (_audioClient (manager w)) as [a|].
  - destruct Hts as [Ha Hn]. split; [lia | split; assumption].
  - destruct Hts as [Ha Hn], Hts' as [_ Hn']. cbn [contextID] in Ha.
    split; [destruct (seenConnected ts); lia|].
    split; [exact Hn|]. split; [exact Ha|].
    rewrite Hn', Hn. unfold seenConnected. rewrite existsb_app. cbn [existsb].
    fold (seenConnected ts).
    destruct (seenConnected ts), (isConnectedState (fst t)); cbn; lia.
Qed.

Lemma audio_constructed_at_first_connected_witness :
  _domain (manager sampleManager) = None /\
  audioConstructions
    (calls (deliver (fst (connect sampleManager "example.com")) sampleTransitions)) = 1.
Proof.
  split; [reflexivity|].
  destruct (audio_constructed_at_first_connected
              sampleManager "example.com" sampleTransitions (CONNECTED, "") eq_refl)
    as (_ & Hn & _).
  exact Hn.
Defined.

(** C7 as stated fails: in a second session the first Connected transition
    constructs nothing, and the audio client in place is the one of the
    first session (context 0), not of the live one (context 1). *)
Lemma audio_first_connected_counterexample :
  _domain (manager (run sampleManager sampleSession)) = None /\
  seenConnected [(CONNECTED, "")] = true /\
  audioConstructions
    (calls (deliver (fst (connect (run sampleManager sampleSession) "other.example"))
                    [(CONNECTED, "")]))
  = audioConstructions
      (calls (fst (connect (run sampleManager sampleSession) "other.example"))) /\
  _domain (manager (deliver (fst (connect (run sampleManager sampleSession) "other.example"))
                            [(CONNECTED, "")])) = Some {| contextID := 1 |} /\
  _audioClient (manager (deliver (fst (connect (run sampleManager sampleSession) "other.example"))
                                 [(CONNECTED, "")])) = Some {| audioContextID := 0 |}.
Proof. vm_compute. repeat split; reflexivity. Qed.

(** ** The audio-session invariant *)

Section Invariant.
Context `{Imports}.

Lemma step_tracks w o op : tracks w o -> tracks (step w op) (lifetimeStep o op).
Proof.
  destruct w as [cfg n cs [url d a sig]], o as [l s]; unfold tracks; cbn.
  intros [-> ->]. destruct op as [pUrl| | |pState pInfo]; cbn.
  - unfold connect; cbn. destruct d; cbn; auto.
  - unfold disconnect; cbn. destruct d; cbn; auto.
  - auto.
  - unfold _handleOnDomainStateChange, setupAudio; cbn.
    destruct (isConnectedState pState), d, a; cbn; auto.
Qed.

Lemma run_tracks ops : forall w o,
  tracks w o -> tracks (run w ops) (fold_left lifetimeStep ops o).
Proof.
  induction ops as [|op ops IH]; intros w o Hwo; [exact Hwo|].
  cbn. apply IH, step_tracks, Hwo.
Qed.

End Invariant.

(** C1, as the code has it. In every state a manager can reach from its
    construction by calls of connect, disconnect and
    storePersistentVariables and by raw state-change callbacks, an audio
    client exists if and only if a Connected state has been observed while
    some Connection Session was live; [disconnect] discards the Connection
    Session and leaves the audio client as it is. *)
Theorem audio_session_invariant `{Imports}
    (cfg : gmap string string) (next : nat) (ops : list Op) :
  (is_Some (_audioClient (manager (run (Domain_new cfg next) ops)))
   <-> connectedWhileSomeSessionLive ops = true) /\
  _domain (manager (fst (disconnect (run (Domain_new cfg next) ops)))) = None /\
  _audioClient (manager (fst (disconnect (run (Domain_new cfg next) ops))))
    = _audioClient (manager (run (Domain_new cfg next) ops)).
Proof.
  split.
  - assert (Hinit : tracks (Domain_new cfg next) {| live := false; seen := false |})
      by (split; reflexivity).
    destruct (run_tracks ops _ _ Hinit) as [_ Hseen].
    unfold connectedWhileSomeSessionLive. rewrite Hseen.
    destruct (_audioClient (manager (run (Domain_new cfg next) ops))); cbn.
    + split; [reflexivity | eauto].
    + split; [intros [x Hx]; discriminate | discriminate].
  - unfold disconnect.
    destruct (_domain (manager (run (Domain_new cfg next) ops))) eqn:Hd; cbn; auto.
Qed.

(** C1 as stated fails: after connect, a Connected state and disconnect
    the audio client is still there; and after the next connect it exists
    although no Connected state has been observed since that session was
    created. *)
Lemma audio_session_invariant_counterexample :
  (_domain (manager (run sampleManager sampleSession)) = None /\
   _audioClient (manager (run sampleManager sampleSession)) = Some {| audioContextID := 0 |}) /\
  (_domain (manager (run sampleManager sampleReconnect)) = Some {| contextID := 1 |} /\
   connectedSinceSessionCreated sampleReconnect = false /\
   ~ (is_Some (_audioClient (manager (run sampleManager sampleReconnect)))
      <-> connectedSinceSessionCreated sampleReconnect = true)).
Proof.
  split; [split; vm_compute; reflexivity|].
  split; [vm_compute; reflexivity|].
  split; [vm_compute; reflexivity|].
  intros [Hto _].
  assert (Hsome : is_Some (_audioClient (manager (run sampleManager sampleReconnect)))).
  { exists {| audioContextID := 0 |}. vm_compute. reflexivity. }
  specialize (Hto Hsome). vm_compute in Hto. discriminate Hto.
Qed.

(** ** The Shape entity builder *)

(** C9. One [build g e] of the Shape builder adds exactly one component to
    g, a [ShapeEntityController] constructed from e, after the components g
    already has, and nothing else. *)
Theorem build_adds_one_controller {IEntity OtherComponent : Type}
    (g : GameObject IEntity OtherComponent) (e : IEntity) :
  components (build g e) = (components g ++ [ShapeEntityController e])%list /\
  length (components (build g e)) = S (length (components g)).
Proof.
  unfold build, addComponent; cbn. split; [reflexivity|].
  rewrite length_app. cbn. lia.
Qed.

(** * Further properties of the manager *)

Section ManagerFacts.
Context `{Imports}.

Lemma openSessions_snoc cs c :
  openSessions (cs ++ [c]) = sessionCall (openSessions cs) c.
Proof. unfold openSessions. now rewrite fold_left_app. Qed.

Lemma openSessions_app3 cs a b c :
  openSessions (cs ++ [a; b; c])
  = sessionCall (sessionCall (sessionCall (openSessions cs) a) b) c.
Proof. unfold openSessions. now rewrite fold_left_app. Qed.

Lemma step_oneSession w op : oneSession w -> oneSession (step w op).
Proof.
  destruct w as [cfg n cs [url d a sig]]; unfold oneSession; cbn -[openSessions].
  intros Hw. destruct op as [pUrl| | |pState pInfo]; cbn -[openSessions].
  - unfold connect; cbn -[openSessions]. destruct d as [srv|]; cbn -[openSessions].
    + exact Hw.
    + rewrite openSessions_app3, Hw. reflexivity.
  - unfold disconnect; cbn -[openSessions]. destruct d as [srv|]; cbn -[openSessions].
    + rewrite openSessions_snoc, Hw. cbn. now rewrite Nat.eqb_refl.
    + exact Hw.
  - exact Hw.
  - unfold _handleOnDomainStateChange, setupAudio; cbn -[openSessions].
    destruct (isConnectedState pState); [|exact Hw].
    destruct d as [srv|], a as [a|]; cbn -[openSessions]; try exact Hw.
    rewrite openSessions_snoc, Hw. reflexivity.
Qed.

Lemma step_audioCounted w op : audioCounted w -> audioCounted (step w op).
Proof.
  destruct w as [cfg n cs [url d a sig]]; unfold audioCounted; cbn -[audioConstructions].
  intros Hw. destruct op as [pUrl| | |pState pInfo]; cbn -[audioConstructions].
  - unfold connect; cbn -[audioConstructions]. destruct d as [srv|]; cbn -[audioConstructions].
    + exact Hw.
    + unfold audioConstructions in *. rewrite List.filter_app, length_app. cbn. lia.
  - unfold disconnect; cbn -[audioConstructions]. destruct d as [srv|]; cbn -[audioConstructions].
    + rewrite audioConstructions_snoc. cbn. lia.
    + exact Hw.
  - exact Hw.
  - unfold _handleOnDomainStateChange, setupAudio; cbn -[audioConstructions].
    destruct (isConnectedState pState); [|exact Hw].
    destruct d as [srv|], a as [a|]; cbn -[audioConstructions]; try exact Hw.
    rewrite audioConstructions_snoc, Hw. reflexivity.
Qed.

Lemma run_preserves (P : World -> Prop) :
  (forall w op, P w -> P (step w op)) ->
  forall ops w, P w -> P (run w ops).
Proof.
  intros Hstep ops; induction ops as [|op ops IH]; intros w Hw; [exact Hw|].
  cbn. apply IH, Hstep, Hw.
Qed.

Lemma step_emissions w op :
  map emissionArgs (emitted (onStateChange (manager (step w op))))
  = (map emissionArgs (emitted (onStateChange (manager w)))
     ++ map (fun t => (stateToString (fst t), snd t)) (stateChangesOf [op]))%list.
Proof.
  destruct op as [pUrl| | |pState pInfo].
  - cbn. unfold connect. destruct (_domain (manager w)); cbn; now rewrite app_nil_r.
  - cbn. unfold disconnect. destruct (_domain (manager w)); cbn; now rewrite app_nil_r.
  - cbn. now rewrite app_nil_r.
  - unfold step. rewrite handler_emitted, map_app. reflexivity.
Qed.

End ManagerFacts.

(** X1. At most one session is open at any time: in every state a manager
    reaches from its construction, the sessions that have been connected
    and not yet disconnected, read off the trace of SDK calls, are exactly
    the one session the manager holds, or none. *)
Theorem single_open_session `{Imports}
    (cfg : gmap string string) (next : nat) (ops : list Op) :
  openSessions (calls (run (Domain_new cfg next) ops))
  = match _domain (manager (run (Domain_new cfg next) ops)) with
    | Some srv => [contextID srv]
    | None => []
    end.
Proof.
  apply (run_preserves oneSession step_oneSession ops). reflexivity.
Qed.

(** X2. Over the whole life of a manager at most one [DomainAudio] is ever
    constructed: after any history the number of constructions is one if a
    Connected state was observed while some session was live, and zero
    otherwise. *)
Theorem one_audio_per_manager `{Imports}
    (cfg : gmap string string) (next : nat) (ops : list Op) :
  audioConstructions (calls (run (Domain_new cfg next) ops))
  = if connectedWhileSomeSessionLive ops then 1 else 0.
Proof.
  assert (Hinit : tracks (Domain_new cfg next) {| live := false; seen := false |})
    by (split; reflexivity).
  destruct (run_tracks ops _ _ Hinit) as [_ Hseen].
  unfold connectedWhileSomeSessionLive. rewrite Hseen.
  apply (run_preserves audioCounted step_audioCounted ops). reflexivity.
Qed.

(** X3. Only the raw state-change callbacks emit on [onStateChange]: after
    any history the emissions are the earlier ones followed by one per
    state change of the history, in order; connect, disconnect and
    storePersistentVariables emit nothing. *)
Theorem emissions_only_from_callbacks `{Imports} (w : World) (ops : list Op) :
  map emissionArgs (emitted (onStateChange (manager (run w ops))))
  = (map emissionArgs (emitted (onStateChange (manager w)))
     ++ map (fun t => (stateToString (fst t), snd t)) (stateChangesOf ops))%list.
Proof.
  revert w; induction ops as [|op ops IH]; intros w.
  - cbn. now rewrite app_nil_r.
  - change (run w (op :: ops)) with (run (step w op) ops).
    rewrite IH, step_emissions, <- app_assoc, <- map_app.
    unfold stateChangesOf. cbn [flat_map]. now rewrite app_nil_r.
Qed.

(** X4. [connect] throws exactly when a session is live: after any history
    of a manager, a further connect completes normally if the last connect
    or disconnect call of the history was a disconnect (or there was none),
    and throws if it was a connect. *)
Theorem connect_throws_iff_live `{Imports}
    (cfg : gmap string string) (next : nat) (ops : list Op) (pUrl : string) :
  snd (connect (run (Domain_new cfg next) ops) pUrl)
  = if sessionLiveAfter ops
    then Throw "Attempt to connect to domain when already connected"
    else Normal.
Proof.
  assert (Hinit : tracks (Domain_new cfg next) {| live := false; seen := false |})
    by (split; reflexivity).
  destruct (run_tracks ops _ _ Hinit) as [Hlive _].
  unfold sessionLiveAfter. rewrite Hlive. unfold connect.
  now destruct (_domain (manager (run (Domain_new cfg next) ops))).
Qed.

(** X5. A state-change callback never touches the Config store, the
    context-id supply, the URL or the session reference. Without a session
    it makes no SDK call and leaves the audio client alone, also for a
    Connected state; with a session the only call it can add is the
    construction of the [DomainAudio]. *)
Theorem handler_frame `{Imports}
    (w : World) (pState : ConnectionState) (pInfo : string) :
  config (_handleOnDomainStateChange w pState pInfo) = config w /\
  nextContextID (_handleOnDomainStateChange w pState pInfo) = nextContextID w /\
  _domainUrl (manager (_handleOnDomainStateChange w pState pInfo)) = _domainUrl (manager w) /\
  _domain (manager (_handleOnDomainStateChange w pState pInfo)) = _domain (manager w) /\
  match _domain (manager w) with
  | None =>
      calls (_handleOnDomainStateChange w pState pInfo) = calls w /\
      _audioClient (manager (_handleOnDomainStateChange w pState pInfo))
        = _audioClient (manager w)
  | Some srv =>
      calls (_handleOnDomainStateChange w pState pInfo) = calls w \/
      calls (_handleOnDomainStateChange w pState pInfo)
        = (calls w ++ [NewDomainAudio (contextID srv)])%list
  end.
Proof.
  destruct w as [cfg n cs [url d a sig]].
  unfold _handleOnDomainStateChange, setupAudio; cbn.
  destruct (isConnectedState pState), d as [srv|], a as [a|]; cbn; auto 10.
Qed.

(** ** Persistent variables and accessors *)

(** X6. What [storePersistentVariables] writes is what the next manager
    starts from: a manager constructed over the store afterwards, and a
    [restorePersistentVariables] on this one, give back the URL that was
    stored; storing twice is the same as storing once. *)
Theorem stored_url_is_restored `{Imports} (w : World) (next : nat) :
  DomainUrl (Domain_new (config (storePersistentVariables w)) next) = DomainUrl w /\
  DomainUrl (restorePersistentVariables (storePersistentVariables w)) = DomainUrl w /\
  storePersistentVariables (storePersistentVariables w) = storePersistentVariables w.
Proof.
  destruct w as [cfg n cs [url d a sig]].
  unfold DomainUrl, Domain_new, restorePersistentVariables, storePersistentVariables,
    Config.getItemOr, Config.setItem; cbn.
  rewrite lookup_insert_eq. repeat split. f_equal. apply insert_insert_eq.
Qed.

(** X7. A new manager has no session and no audio client, has emitted
    nothing and called nothing, reports Disconnected whatever the SDK
    says, and its URL is the stored one, or "UNKNOWN" when the store has no
    entry under the domain-URL key; its first connect completes normally. *)
Theorem new_manager_is_idle `{Imports}
    (sdkState : nat -> ConnectionState)
    (cfg : gmap string string) (next : nat) (pUrl : string) :
  DomainUrl (Domain_new cfg next)
    = match cfg !! DOMAIN_URL with Some url => url | None => "UNKNOWN" end /\
  _domain (manager (Domain_new cfg next)) = None /\
  _audioClient (manager (Domain_new cfg next)) = None /\
  emitted (onStateChange (manager (Domain_new cfg next))) = [] /\
  calls (Domain_new cfg next) = [] /\
  DomainState sdkState (Domain_new cfg next) = DISCONNECTED /\
  isConnected sdkState (Domain_new cfg next) = false /\
  snd (connect (Domain_new cfg next) pUrl) = Normal.
Proof.
  unfold DomainUrl, Domain_new, restorePersistentVariables, Config.getItemOr; cbn.
  destruct (cfg !! DOMAIN_URL); repeat split.
Qed.

(** X8. [storePersistentVariables] writes one key only. When the keys of the
    default protocol and of the default port are not the domain-URL key,
    URLs are normalised after it as before it, and the manager and the SDK
    trace are as they were. *)
Theorem store_keeps_normalisation `{Imports} (w : World) (x : string) :
  DEFAULT_DOMAIN_PROTOCOL <> DOMAIN_URL ->
  DEFAULT_DOMAIN_PORT <> DOMAIN_URL ->
  cleanDomainUrl (config (storePersistentVariables w)) x = cleanDomainUrl (config w) x /\
  (forall k, k <> DOMAIN_URL ->
     config (storePersistentVariables w) !! k = config w !! k) /\
  manager (storePersistentVariables w) = manager w /\
  calls (storePersistentVariables w) = calls w.
Proof.
  intros HP HN.
  assert (Hother : forall k, k <> DOMAIN_URL ->
            config (storePersistentVariables w) !! k = config w !! k).
  { intros k Hk. unfold storePersistentVariables, Config.setItem; cbn.
    now apply lookup_insert_ne. }
  repeat split; [|exact Hother].
  unfold cleanDomainUrl, cleanDomainUrl_scheme, Config.getItem, Config.getItemOr.
  now rewrite (Hother _ HP), (Hother _ HN).
Qed.

Lemma store_keeps_normalisation_witness :
  DEFAULT_DOMAIN_PROTOCOL <> DOMAIN_URL /\
  DEFAULT_DOMAIN_PORT <> DOMAIN_URL /\
  cleanDomainUrl (config (storePersistentVariables (fst (connect sampleManager "example.com"))))
                 "Other.Example"
  = "ws://other.example:40102".
Proof.
  split; [discriminate|]. split; [discriminate|].
  destruct (store_keeps_normalisation
              (fst (connect sampleManager "example.com")) "Other.Example")
    as [Hclean _]; [discriminate | discriminate |].
  rewrite Hclean. vm_compute. reflexivity.
Defined.

(** X9. The three state accessors agree: [DomainStateAsString] is the
    display string of [DomainState], and [isConnected] holds exactly when
    [DomainState] is Connected. *)
Theorem accessors_agree `{Imports} (sdkState : nat -> ConnectionState) (w : World) :
  DomainStateAsString sdkState w = stateToString (DomainState sdkState w) /\
  (isConnected sdkState w = true <-> DomainState sdkState w = CONNECTED).
Proof.
  unfold DomainStateAsString, DomainState, isConnected.
  destruct (_domain (manager w)) as [srv|]; split; try reflexivity.
  - destruct (sdkState (contextID srv)); cbn; split; congruence.
  - split; discriminate.
Qed.

(** X10. Right after [disconnect] the manager reports Disconnected and not
    connected, whatever state the SDK's server objects still report, and
    whether or not there was a session. *)
Theorem disconnected_after_disconnect `{Imports}
    (sdkState : nat -> ConnectionState) (w : World) :
  snd (disconnect w) = Normal /\
  DomainState sdkState (fst (disconnect w)) = DISCONNECTED /\
  DomainStateAsString sdkState (fst (disconnect w)) = stateToString DISCONNECTED /\
  isConnected sdkState (fst (disconnect w)) = false /\
  DomainUrl (fst (disconnect w)) = DomainUrl w.
Proof.
  unfold disconnect, DomainState, DomainStateAsString, isConnected, DomainUrl.
  destruct (_domain (manager w)) as [srv|] eqn:Hd; cbn; rewrite ?Hd; repeat split.
Qed.

(** ** More on URL normalisation *)

(** Whether the port pattern finds a match. *)
Lemma hasPort_cons c s :
  JS.Array_isArray (JS.portRegexExec (String c s))
  = JS.Array_isArray (JS.portAtHead (String c s)) || JS.Array_isArray (JS.portRegexExec s).
Proof.
  unfold JS.portRegexExec. rewrite portRegexExecFrom_cons.
  destruct (JS.portAtHead (String c s)); [reflexivity|].
  cbn [JS.Array_isArray orb]. apply portRegexExecFrom_isArray.
Qed.

Lemma isDigit_toLowerChar c : JS.isDigit (JS.toLowerChar c) = JS.isDigit c.
Proof. destruct c as [[] [] [] [] [] [] [] []]; reflexivity. Qed.

Lemma colon_toLowerChar c :
  Ascii.eqb (JS.toLowerChar c) ":" = Ascii.eqb c ":".
Proof. destruct c as [[] [] [] [] [] [] [] []]; reflexivity. Qed.

Lemma digitsToEnd_toLowerCase s : JS.digitsToEnd (JS.toLowerCase s) = JS.digitsToEnd s.
Proof.
  induction s as [|c s IH]; [reflexivity|].
  cbn. now rewrite isDigit_toLowerChar, IH.
Qed.

Lemma portAtHead_eqb c s :
  JS.Array_isArray (JS.portAtHead (String c s)) = Ascii.eqb c ":" && JS.digitsToEnd s.
Proof.
  unfold JS.portAtHead. destruct (Ascii.eqb c ":") eqn:Hc.
  - apply Ascii.eqb_eq in Hc; subst c. now destruct (JS.digitsToEnd s).
  - destruct c as [[] [] [] [] [] [] [] []]; try reflexivity; discriminate Hc.
Qed.

(** Lower-casing does not change whether there is a port suffix. *)
Lemma hasPort_toLowerCase s :
  JS.Array_isArray (JS.portRegexExec (JS.toLowerCase s))
  = JS.Array_isArray (JS.portRegexExec s).
Proof.
  induction s as [|c s IH]; [reflexivity|].
  cbn [JS.toLowerCase]. rewrite !hasPort_cons, !portAtHead_eqb, IH.
  now rewrite colon_toLowerChar, digitsToEnd_toLowerCase.
Qed.

Lemma startsWith_split s p :
  JS.startsWith s p = true -> s = p +:+ JS.substring (String.length p) s.
Proof.
  revert s; induction p as [|pc p IH]; intros s; [reflexivity|].
  destruct s as [|sc s]; cbn; [discriminate|].
  destruct (Ascii.eqb sc pc) eqn:Hc; [|discriminate].
  apply Ascii.eqb_eq in Hc; subst sc. intros Hp.
  rewrite append_cons. f_equal. now apply IH.
Qed.

Lemma startsWith_self p r : JS.startsWith (p +:+ r) p = true.
Proof.
  induction p as [|pc p IH]; [reflexivity|].
  rewrite append_cons. cbn. now rewrite Ascii.eqb_refl.
Qed.

Lemma substring_self p r : JS.substring (String.length p) (p +:+ r) = r.
Proof. induction p as [|pc p IH]; [reflexivity|]. rewrite append_cons. exact IH. Qed.

Lemma digitsToEnd_slash a b : JS.digitsToEnd (a +:+ String "/" b) = false.
Proof.
  induction a as [|c a IH]; [reflexivity|].
  rewrite append_cons. cbn. rewrite IH. apply andb_false_r.
Qed.

(** What stands before a slash is no part of a port suffix. *)
Lemma hasPort_before_slash a b :
  JS.Array_isArray (JS.portRegexExec (a +:+ String "/" b))
  = JS.Array_isArray (JS.portRegexExec b).
Proof.
  induction a as [|c a IH].
  - rewrite append_empty, hasPort_cons, portAtHead_eqb. reflexivity.
  - rewrite append_cons, hasPort_cons, portAtHead_eqb, digitsToEnd_slash, IH.
    now rewrite andb_false_r.
Qed.

Lemma hasPort_strip s p n :
  JS.startsWith s p = true -> String.length p = n ->
  lastChar p = Some "/"%char ->
  JS.Array_isArray (JS.portRegexExec (JS.substring n s))
  = JS.Array_isArray (JS.portRegexExec s).
Proof.
  intros Hp <- Hl. rewrite (startsWith_split s p Hp) at 2.
  set (r := JS.substring (String.length p) s). clearbody r. clear Hp.
  assert (Hsplit : exists q, p = q +:+ "/").
  { clear r. induction p as [|c p IH]; [discriminate|].
    cbn in Hl. destruct (lastChar p) as [d|] eqn:Hd.
    - destruct (IH Hl) as [q ->]. exists (String c q). now rewrite append_cons.
    - injection Hl as ->. destruct p as [|c' p]; [now exists ""|].
      cbn in Hd. destruct (lastChar p); discriminate. }
  destruct Hsplit as [q ->]. rewrite string_app_assoc.
  rewrite append_cons, append_empty. symmetry. apply hasPort_before_slash.
Qed.

Section MoreCleanDomainUrl.
Context `{Imports}.

Lemma cleanDomainUrl_scheme_hasPort cfg x :
  JS.Array_isArray (JS.portRegexExec (cleanDomainUrl_scheme cfg x))
  = JS.Array_isArray (JS.portRegexExec x).
Proof.
  unfold cleanDomainUrl_scheme. rewrite <- (hasPort_toLowerCase x).
  set (u := JS.toLowerCase x).
  assert (Hv : JS.Array_isArray (JS.portRegexExec
                 (if JS.startsWith u "http://" then JS.substring 7 u else u))
               = JS.Array_isArray (JS.portRegexExec u)).
  { destruct (JS.startsWith u "http://") eqn:Hp; [|reflexivity].
    now apply (hasPort_strip u "http://" 7 Hp). }
  set (v := if JS.startsWith u "http://" then JS.substring 7 u else u) in *.
  assert (Hw : JS.Array_isArray (JS.portRegexExec
                 (if JS.startsWith v "https://" then JS.substring 8 v else v))
               = JS.Array_isArray (JS.portRegexExec u)).
  { rewrite <- Hv. destruct (JS.startsWith v "https://") eqn:Hp; [|reflexivity].
    now apply (hasPort_strip v "https://" 8 Hp). }
  set (w := if JS.startsWith v "https://" then JS.substring 8 v else v) in *.
  destruct (JS.startsWith w "ws://"); cbn [negb]; [exact Hw|].
  rewrite <- Hw, string_app_assoc.
  change ("//" +:+ w) with (String "/" (String "/" w)).
  rewrite hasPort_before_slash, hasPort_cons, portAtHead_eqb. reflexivity.
Qed.

End MoreCleanDomainUrl.

(** X11. Whether the default port is appended is decided by the input as
    typed: it is appended exactly when the input has no colon followed only
    by digits (possibly none) at its end; neither the lower-casing, nor a
    stripped http prefix, nor the added protocol changes that. *)
Theorem default_port_iff_no_port_typed `{Imports} (cfg : gmap string string) (x : string) :
  cleanDomainUrl cfg x
  = if JS.Array_isArray (JS.portRegexExec x)
    then cleanDomainUrl_scheme cfg x
    else (cleanDomainUrl_scheme cfg x +:+ ":") +:+ Config.getItem cfg DEFAULT_DOMAIN_PORT.
Proof.
  unfold cleanDomainUrl. rewrite cleanDomainUrl_scheme_hasPort.
  now destruct (JS.Array_isArray (JS.portRegexExec x)).
Qed.












(** X14. An http or https prefix makes no difference: for a rest that does
    not itself begin with "http://" or "https://" (in any case), the URL
    with either prefix is normalised to the same result as the rest alone. *)
Theorem http_prefix_is_dropped `{Imports} (cfg : gmap string string) (h : string) :
  JS.startsWith (JS.toLowerCase h) "http://" = false ->
  JS.startsWith (JS.toLowerCase h) "https://" = false ->
  cleanDomainUrl cfg ("http://" +:+ h) = cleanDomainUrl cfg h /\
  cleanDomainUrl cfg ("https://" +:+ h) = cleanDomainUrl cfg h /\
  cleanDomainUrl cfg ("HTTPS://" +:+ h) = cleanDomainUrl cfg h.
Proof.
  intros Hhttp Hhttps.
  assert (Hs1 : cleanDomainUrl_scheme cfg ("http://" +:+ h) = cleanDomainUrl_scheme cfg h).
  { unfold cleanDomainUrl_scheme. rewrite toLowerCase_app.
    change (JS.toLowerCase "http://") with "http://".
    set (lh := JS.toLowerCase h) in *.
    rewrite (startsWith_self "http://" lh).
    change (JS.substring 7 ("http://" +:+ lh)) with lh.
    now rewrite Hhttp, Hhttps. }
  assert (Hs2 : forall q, JS.toLowerCase q = "https://" ->
            cleanDomainUrl_scheme cfg (q +:+ h) = cleanDomainUrl_scheme cfg h).
  { intros q Hq. unfold cleanDomainUrl_scheme. rewrite toLowerCase_app, Hq.
    set (lh := JS.toLowerCase h) in *.
    change (JS.startsWith ("https://" +:+ lh) "http://") with false.
    cbv beta iota zeta.
    rewrite (startsWith_self "https://" lh).
    change (JS.substring 8 ("https://" +:+ lh)) with lh.
    now rewrite Hhttp, Hhttps. }
  unfold cleanDomainUrl.
  rewrite Hs1, (Hs2 "https://" eq_refl), (Hs2 "HTTPS://" eq_refl). auto.
Qed.

Lemma http_prefix_is_dropped_witness :
  JS.startsWith (JS.toLowerCase "Example.com:400") "http://" = false /\
  JS.startsWith (JS.toLowerCase "Example.com:400") "https://" = false /\
  cleanDomainUrl sampleConfig ("https://" +:+ "Example.com:400")
    = cleanDomainUrl sampleConfig "Example.com:400".
Proof.
  split; [reflexivity|]. split; [reflexivity|].
  destruct (http_prefix_is_dropped sampleConfig "Example.com:400" eq_refl eq_refl)
    as (_ & Hhttps & _).
  exact Hhttps.
Defined.

(** X15. Only "ws://" counts as a websocket prefix: a URL typed with the
    secure scheme "wss://" gets the default protocol put in front of it, so
    the result begins with the default protocol, "//", and then "wss://". *)
Theorem wss_url_gets_default_protocol `{Imports} (cfg : gmap string string) (x : string) :
  JS.startsWith (cleanDomainUrl cfg ("wss://" +:+ x))
    ((Config.getItem cfg DEFAULT_DOMAIN_PROTOCOL +:+ "//") +:+ "wss://") = true.
Proof.
  assert (Hscheme : cleanDomainUrl_scheme cfg ("wss://" +:+ x)
                    = ((Config.getItem cfg DEFAULT_DOMAIN_PROTOCOL +:+ "//") +:+ "wss://")
                      +:+ JS.toLowerCase x).
  { unfold cleanDomainUrl_scheme. rewrite toLowerCase_app.
    change (JS.toLowerCase "wss://") with "wss://".
    set (lx := JS.toLowerCase x).
    assert (H1 : JS.startsWith ("wss://" +:+ lx) "http://" = false) by reflexivity.
    assert (H2 : JS.startsWith ("wss://" +:+ lx) "https://" = false) by reflexivity.
    assert (H3 : JS.startsWith ("wss://" +:+ lx) "ws://" = false) by reflexivity.
    rewrite H1, H2, H3. cbn [negb]. now rewrite !string_app_assoc. }
  unfold cleanDomainUrl. rewrite Hscheme.
  destruct (negb _).
  - apply startsWith_app, startsWith_app, startsWith_self.
  - apply startsWith_self.
Qed.

(** ** The ordering of places *)

Lemma string_compare_refl s : String.compare s s = Eq.
Proof.
  pose proof (String.compare_antisym s s) as Hs.
  destruct (String.compare s s); [reflexivity | discriminate | discriminate].
Qed.

Lemma string_compare_lt_trans a b c :
  String.compare a b = Lt -> String.compare b c = Lt -> String.compare a c = Lt.
Proof.
  intros Hab Hbc.
  assert (Hle : String.le a c).
  { transitivity b; unfold String.le, String.leb; [now rewrite Hab | now rewrite Hbc]. }
  unfold String.le, String.leb in Hle.
  destruct (String.compare a c) eqn:Hac; [|reflexivity|contradiction].
  apply String.compare_eq_iff in Hac; subst c.
  rewrite String.compare_antisym, Hbc in Hab. discriminate.
Qed.

(** The comparison function by cases on the two attendances. *)
Lemma comparePlaces_cases a b :
  comparePlaces a b
  = match currentAttendance a, currentAttendance b with
    | Num n, Num m =>
        match (m ?= n)%Z with
        | Lt => (-1)%Z
        | Gt => 1%Z
        | Eq => compareNames a b
        end
    | _, _ => compareNames a b
    end.
Proof.
  assert (Hnames : (if String.ltb (JS.toLowerCase (name a)) (JS.toLowerCase (name b))
                    then (-1)%Z
                    else if String.ltb (JS.toLowerCase (name b)) (JS.toLowerCase (name a))
                         then 1%Z else 0%Z) = compareNames a b).
  { unfold compareNames, String.ltb.
    rewrite (String.compare_antisym (JS.toLowerCase (name b)) (JS.toLowerCase (name a))).
    now destruct (String.compare (JS.toLowerCase (name a)) (JS.toLowerCase (name b))). }
  unfold comparePlaces, numberGt, numberLt.
  destruct (currentAttendance a) as [|n], (currentAttendance b) as [|m]; try exact Hnames.
  unfold Z.ltb. rewrite (Z.compare_antisym m n).
  destruct (m ?= n)%Z; cbn; [exact Hnames | reflexivity | reflexivity].
Qed.

Lemma compareNames_antisym a b : compareNames a b = (- compareNames b a)%Z.
Proof.
  unfold compareNames.
  rewrite (String.compare_antisym (JS.toLowerCase (name b)) (JS.toLowerCase (name a))).
  now destruct (String.compare (JS.toLowerCase (name a)) (JS.toLowerCase (name b))).
Qed.

(** X16. The comparison function of the places list is antisymmetric:
    swapping the arguments negates the result, and an entry compared with
    itself gives 0. *)
Theorem comparePlaces_antisym (a b : PlaceEntry) :
  comparePlaces a b = (- comparePlaces b a)%Z /\ comparePlaces a a = 0%Z.
Proof.
  split.
  - rewrite !comparePlaces_cases.
    destruct (currentAttendance a) as [|n], (currentAttendance b) as [|m];
      try apply compareNames_antisym.
    rewrite (Z.compare_antisym m n).
    destruct (m ?= n)%Z; cbn; try reflexivity. apply compareNames_antisym.
  - rewrite comparePlaces_cases. unfold compareNames. rewrite string_compare_refl.
    destruct (currentAttendance a) as [|n]; [reflexivity|].
    now rewrite Z.compare_refl.
Qed.

(** X17. For places with ASCII names the result, always -1, 0 or 1, is
    read off two keys. When both attendances are numbers, it is 0 exactly
    when they are equal and the lower-cased names are equal, and -1 exactly
    when the first place has more people, or as many and the smaller
    lower-cased name. When an attendance is NaN or missing, the attendances
    are passed over and the lower-cased names alone decide. *)
Theorem comparePlaces_keys (a b : PlaceEntry) :
  JS.isAscii (name a) = true ->
  JS.isAscii (name b) = true ->
  match currentAttendance a, currentAttendance b with
  | Num n, Num m =>
      (comparePlaces a b = 0%Z <->
       n = m /\ JS.toLowerCase (name a) = JS.toLowerCase (name b)) /\
      (comparePlaces a b = (-1)%Z <->
       (m < n)%Z \/
       n = m /\ String.ltb (JS.toLowerCase (name a)) (JS.toLowerCase (name b)) = true)
  | _, _ =>
      (comparePlaces a b = 0%Z <->
       JS.toLowerCase (name a) = JS.toLowerCase (name b)) /\
      (comparePlaces a b = (-1)%Z <->
       String.ltb (JS.toLowerCase (name a)) (JS.toLowerCase (name b)) = true)
  end /\
  (comparePlaces a b = 0 \/ comparePlaces a b = (-1) \/ comparePlaces a b = 1)%Z.
Proof.
  intros _ _. rewrite comparePlaces_cases. unfold compareNames, String.ltb.
  assert (Hnames :
    forall r : Z,
      r = match String.compare (JS.toLowerCase (name a)) (JS.toLowerCase (name b)) with
          | Lt => (-1)%Z | Eq => 0%Z | Gt => 1%Z end ->
      (r = 0%Z <-> JS.toLowerCase (name a) = JS.toLowerCase (name b)) /\
      (r = (-1)%Z <->
       (if String.compare (JS.toLowerCase (name a)) (JS.toLowerCase (name b)) is Lt
        then true else false) = true) /\
      (r = 0 \/ r = (-1) \/ r = 1)%Z).
  { intros r ->.
    destruct (String.compare (JS.toLowerCase (name a)) (JS.toLowerCase (name b))) eqn:Hs.
    - apply String.compare_eq_iff in Hs. repeat split; auto; discriminate.
    - repeat split; auto; try discriminate.
      intros Hn. rewrite Hn, string_compare_refl in Hs. discriminate.
    - repeat split; auto; try discriminate.
      intros Hn. rewrite Hn, string_compare_refl in Hs. discriminate. }
  destruct (currentAttendance a) as [|n], (currentAttendance b) as [|m];
    cbv beta iota;
    try (destruct (Hnames _ eq_refl) as (H0 & H1 & H2); exact (conj (conj H0 H1) H2)).
  destruct (Z.compare_spec m n) as [Heq|Hlt|Hgt].
  - destruct (Hnames _ eq_refl) as (H0 & H1 & H2). subst m.
    split; [split|exact H2].
    + split; [intros Hr; split; [reflexivity | now apply H0] | intros [_ Hn]; now apply H0].
    + split; [intros Hr; right; split; [reflexivity | now apply H1]|].
      intros [Hl|[_ Hl]]; [lia | now apply H1].
  - split; [split|].
    + split; [discriminate | intros [Hn _]; lia].
    + split; [intros _; left; exact Hlt | reflexivity].
    + right; left; reflexivity.
  - split; [split|].
    + split; [discriminate | intros [Hn _]; lia].
    + split; [discriminate | intros [Hl|[Hl _]]; lia].
    + right; right; reflexivity.
Qed.

Lemma comparePlaces_keys_witness :
  JS.isAscii "Hub" = true /\
  JS.isAscii "hub" = true /\
  comparePlaces {| name := "Hub"; currentAttendance := Num 3 |}
                {| name := "hub"; currentAttendance := Num 3 |} = 0%Z.
Proof.
  split; [reflexivity|]. split; [reflexivity|].
  destruct (comparePlaces_keys {| name := "Hub"; currentAttendance := Num 3 |}
                               {| name := "hub"; currentAttendance := Num 3 |}
                               eq_refl eq_refl) as [[H0 _] _].
  apply H0. split; reflexivity.
Defined.

(** X18. Among places whose attendance is a number the comparison function
    is transitive: if a does not come after b and b does not come after c,
    then a does not come after c. Together with antisymmetry this makes it a
    consistent ordering for [sort] on such lists. *)
Theorem comparePlaces_trans (a b c : PlaceEntry) :
  currentAttendance a <> NaN ->
  currentAttendance b <> NaN ->
  currentAttendance c <> NaN ->
  (comparePlaces a b <= 0)%Z -> (comparePlaces b c <= 0)%Z ->
  (comparePlaces a c <= 0)%Z.
Proof.
  intros Ha Hb Hc. rewrite !comparePlaces_cases. unfold compareNames.
  destruct (currentAttendance a) as [|x]; [congruence|].
  destruct (currentAttendance b) as [|y]; [congruence|].
  destruct (currentAttendance c) as [|z]; [congruence|].
  destruct (Z.compare_spec y x) as [Hba|Hba|Hba];
    destruct (Z.compare_spec z y) as [Hcb|Hcb|Hcb];
    destruct (Z.compare_spec z x) as [Hca|Hca|Hca];
    try lia.
  destruct (String.compare (JS.toLowerCase (name a)) (JS.toLowerCase (name b))) eqn:Hab;
    destruct (String.compare (JS.toLowerCase (name b)) (JS.toLowerCase (name c))) eqn:Hbc;
    try lia; intros _ _.
  - apply String.compare_eq_iff in Hab. rewrite Hab, Hbc. lia.
  - apply String.compare_eq_iff in Hab. rewrite Hab, Hbc. lia.
  - apply String.compare_eq_iff in Hbc. rewrite <- Hbc, Hab. lia.
  - rewrite (string_compare_lt_trans _ _ _ Hab Hbc). lia.
Qed.

Lemma comparePlaces_trans_witness :
  (comparePlaces {| name := "Hub"; currentAttendance := Num 5 |}
                 {| name := "arena"; currentAttendance := Num 2 |} <= 0)%Z /\
  (comparePlaces {| name := "arena"; currentAttendance := Num 2 |}
                 {| name := "Beach"; currentAttendance := Num 2 |} <= 0)%Z /\
  (comparePlaces {| name := "Hub"; currentAttendance := Num 5 |}
                 {| name := "Beach"; currentAttendance := Num 2 |} <= 0)%Z.
Proof.
  assert (H1 : (comparePlaces {| name := "Hub"; currentAttendance := Num 5 |}
                              {| name := "arena"; currentAttendance := Num 2 |} <= 0)%Z)
    by (vm_compute; discriminate).
  assert (H2 : (comparePlaces {| name := "arena"; currentAttendance := Num 2 |}
                              {| name := "Beach"; currentAttendance := Num 2 |} <= 0)%Z)
    by (vm_compute; discriminate).
  split; [exact H1|]. split; [exact H2|].
  refine (comparePlaces_trans _ _ _ _ _ _ H1 H2); cbn; discriminate.
Defined.

(** With an attendance that is NaN or missing the comparison is not
    transitive: a comes before b and b before c by name, c before a by
    attendance. *)
Example comparePlaces_nan_cycle :
  comparePlaces {| name := "a"; currentAttendance := Num 1 |}
                {| name := "b"; currentAttendance := NaN |} = (-1)%Z /\
  comparePlaces {| name := "b"; currentAttendance := NaN |}
                {| name := "c"; currentAttendance := Num 2 |} = (-1)%Z /\
  comparePlaces {| name := "a"; currentAttendance := Num 1 |}
                {| name := "c"; currentAttendance := Num 2 |} = 1%Z.
Proof. vm_compute. repeat split; reflexivity. Qed.

(** ** The URLs that reach the SDK *)

Section ConnectUrls.
Context `{Imports}.

Lemma latestConnect_snoc cs c :
  latestConnect (cs ++ [c])
  = match c with ServerConnect ctx url => Some (ctx, url) | _ => latestConnect cs end.
Proof. unfold latestConnect. now rewrite fold_left_app. Qed.

Lemma step_urlOfLatestConnect w op : urlOfLatestConnect w -> urlOfLatestConnect (step w op).
Proof.
  destruct w as [cfg n cs [url d a sig]]; unfold urlOfLatestConnect; cbn -[latestConnect].
  intros Hw. destruct op as [pUrl| | |pState pInfo]; cbn -[latestConnect].
  - unfold connect; cbn -[latestConnect]. destruct d as [srv|]; cbn -[latestConnect].
    + exact Hw.
    + change [NewDomainServer n; SetOnStateChanged n; ServerConnect n (cleanDomainUrl cfg pUrl)]
        with ([NewDomainServer n; SetOnStateChanged n]
              ++ [ServerConnect n (cleanDomainUrl cfg pUrl)])%list.
      rewrite app_assoc, latestConnect_snoc. auto.
  - unfold disconnect; cbn -[latestConnect]. destruct d as [srv|]; cbn -[latestConnect].
    + rewrite latestConnect_snoc. destruct (latestConnect cs) as [[ctx u]|]; [|discriminate].
      destruct Hw as [Hu _]. auto.
    + exact Hw.
  - exact Hw.
  - unfold _handleOnDomainStateChange, setupAudio; cbn -[latestConnect].
    destruct (isConnectedState pState); [|exact Hw].
    destruct d as [srv|], a as [a|]; cbn -[latestConnect]; try exact Hw.
    now rewrite latestConnect_snoc.
Qed.



End ConnectUrls.



(** X20. The manager's URL is the one of its latest session: in every state
    reached from construction by calls of connect, disconnect and
    storePersistentVariables and by state-change callbacks (with no call of
    restorePersistentVariables after the constructor's own), if a server's
    connect has been called, the manager's URL is the URL of the latest such
    call, and the session it holds, if any, is that server; if none has been
    called, it holds none. *)
Theorem url_is_latest_connect `{Imports}
    (cfg : gmap string string) (next : nat) (ops : list Op) :
  match latestConnect (calls (run (Domain_new cfg next) ops)) with
  | Some (ctx, url) =>
      DomainUrl (run (Domain_new cfg next) ops) = url /\
      (_domain (manager (run (Domain_new cfg next) ops)) = None \/
       _domain (manager (run (Domain_new cfg next) ops)) = Some {| contextID := ctx |})
  | None => _domain (manager (run (Domain_new cfg next) ops)) = None
  end.
Proof.
  apply (run_preserves urlOfLatestConnect step_urlOfLatestConnect ops). reflexivity.
Qed.
